(** * Anchor and annotation lifecycle of the WebXR annotation viewer

    A shallow embedding of [web/src/user_text_records.js] and of the
    controller logic of the viewer's [index.js]: the lazily filled store of
    user texts, the select and squeeze handlers, the per-frame flush of the
    pending anchor request, [setPrimaryAnchor] and the restoration of
    persistent anchors at session start.

    The JavaScript modules keep their state in module-level variables and in
    objects of three.js and of the Reality Accelerator Toolkit (RATK).  All
    of it is gathered in one record, [World], threaded through a state and
    exception monad [M].  Every call to a collaborator and every line
    written to the console is appended to [trace], in program order. *)

From stdpp Require Import base list strings gmap.
From stdpp Require Import pretty.
From Stdlib Require Import ZArith SpecFloat.

(** ** Values *)

(** A JavaScript number is an IEEE 754 binary64 value.  The code below only
    copies numbers and writes the literals [0] and [1]. *)
Definition number : Type := spec_float.
Definition num0 : number := S754_zero false.
Definition num1 : number := S754_finite false 4503599627370496 (-52).

Record Vector3 := { x : number; y : number; z : number }.

Record Quaternion := { qx : number; qy : number; qz : number; qw : number }.

(** [new Quaternion()] of three.js: the identity rotation (0, 0, 0, 1). *)
Definition new_Quaternion : Quaternion :=
  {| qx := num0; qy := num0; qz := num0; qw := num1 |}.

(** The value of an [Error]: its message. *)
Definition Error : Type := string.

(** How a call ends: it returns a value or throws.  For an [async] function
    the two cases are the fulfilment and the rejection of its promise. *)
Inductive Completion (A : Type) : Type :=
| Normal (a : A)
| Throw (e : Error).
Arguments Normal {A} a.
Arguments Throw {A} e.

(** One entry [{username, text}] of the remote text store. *)
Record TextRecord := { record_username : string; record_text : string }.

(** An anchor of RATK.  Anchors are JavaScript objects compared by
    identity; [anchorID] stands for that identity. *)
Record Anchor := { anchorID : nat; isPersistent : bool }.

(** The object behind [hit.object.annotationObject]: a reference into the
    heap of annotation objects, so that two hits may share one object. *)
Record AnnotationObject := { ao_username : string; ao_state : string }.

Record Object3D := { annotationObject : option nat }.

(** One intersection reported by [Raycaster.intersectObjects]. *)
Record Hit := { object : option Object3D }.

(** The parent of a node of the scene graph ([Object3D.parent]). *)
Inductive Parent := InScene | InRatkRoot | InAnchor (id : nat).

(** A marker cube: the colour of its [MeshBasicMaterial] and its parent. *)
Record Mesh := { color : Z; mesh_parent : option Parent }.

(** [pendingAnchorData = { position, quaternion }]. *)
Record AnchorData := { position : Vector3; quaternion : Quaternion }.

#[global] Instance Anchor_eq_dec : EqDecision Anchor.
Proof. solve_decision. Defined.
#[global] Instance Parent_eq_dec : EqDecision Parent.
Proof. solve_decision. Defined.

(** ** Observable events *)

Inductive Event :=
(* user_text_records.js *)
| CallFetchAllTextFiles
| LogTextRecords (textRecords : list TextRecord)
| LogUserText (t : string)
(* index.js *)
| LogController (index : nat)
| LogRaycasterHits (hits : list Hit)
| LogUpdateTextUi (username : string) (t : option string)
| CallStartCreatingAnnotationObject (anchor : option Anchor) (hitTestTarget : option nat)
| LogDeletingPersistentAnchor (id : nat)
| CallDeleteAnchor (id : nat)
| SettledDeleteAnchor (id : nat)
| CallRestorePersistentAnchors
| LogRestoredPersistentAnchors (anchors : list Anchor)
| ErrorRestoringAnchors (message : Error)
| CallCreateAnchor (p : Vector3) (q : Quaternion) (persistent : bool)
| LogPrimaryAnchor (a : Anchor)
| LogAnchorCreated (id : nat) (persistent : bool) (isRecovered : bool)
| CallLoadAnnotationObjects (a : Anchor).

(** ** The world *)

Record World := {
  (* user_text_records.js: [const userTextRecords = []] *)
  userTextRecords : list TextRecord;
  (* index.js: [let pendingAnchorData = null], [let primaryAnchor = null],
     [let primaryAnchorMesh = null] *)
  pendingAnchorData : option AnchorData;
  primaryAnchor : option Anchor;
  primaryAnchorMesh : option nat;
  (* three.js: [camera.position], the parent of every anchor (no entry:
     [parent === null]), the heap of marker meshes (a mesh is referred to by
     its index), and the texts of the children of [uiToolbar] *)
  camera_position : Vector3;
  anchor_parent : gmap nat Parent;
  meshes : list Mesh;
  uiToolbar_children : list (option string);
  (* annotation_object.js: the heap of annotation objects *)
  annotationObjects : gmap nat AnnotationObject;
  (* RATK: [ratk.anchors], a Set, in insertion order *)
  ratk_anchors : list Anchor;
  (* the environment: what the remote text store answers to a bulk fetch,
     and the anchors whose deletion the device refuses *)
  cloud_textFiles : Completion (list TextRecord);
  ratk_delete_rejects : gmap nat Error;
  (* calls to collaborators and console output, oldest first *)
  trace : list Event
}.

Definition set_userTextRecords (v : list TextRecord) (w : World) : World :=
  {| userTextRecords := v; pendingAnchorData := pendingAnchorData w;
     primaryAnchor := primaryAnchor w; primaryAnchorMesh := primaryAnchorMesh w;
     camera_position := camera_position w; anchor_parent := anchor_parent w;
     meshes := meshes w; uiToolbar_children := uiToolbar_children w;
     annotationObjects := annotationObjects w; ratk_anchors := ratk_anchors w;
     cloud_textFiles := cloud_textFiles w;
     ratk_delete_rejects := ratk_delete_rejects w; trace := trace w |}.

Definition set_pendingAnchorData (v : option AnchorData) (w : World) : World :=
  {| userTextRecords := userTextRecords w; pendingAnchorData := v;
     primaryAnchor := primaryAnchor w; primaryAnchorMesh := primaryAnchorMesh w;
     camera_position := camera_position w; anchor_parent := anchor_parent w;
     meshes := meshes w; uiToolbar_children := uiToolbar_children w;
     annotationObjects := annotationObjects w; ratk_anchors := ratk_anchors w;
     cloud_textFiles := cloud_textFiles w;
     ratk_delete_rejects := ratk_delete_rejects w; trace := trace w |}.

Definition set_primaryAnchor (v : option Anchor) (w : World) : World :=
  {| userTextRecords := userTextRecords w; pendingAnchorData := pendingAnchorData w;
     primaryAnchor := v; primaryAnchorMesh := primaryAnchorMesh w;
     camera_position := camera_position w; anchor_parent := anchor_parent w;
     meshes := meshes w; uiToolbar_children := uiToolbar_children w;
     annotationObjects := annotationObjects w; ratk_anchors := ratk_anchors w;
     cloud_textFiles := cloud_textFiles w;
     ratk_delete_rejects := ratk_delete_rejects w; trace := trace w |}.

Definition set_primaryAnchorMesh (v : option nat) (w : World) : World :=
  {| userTextRecords := userTextRecords w; pendingAnchorData := pendingAnchorData w;
     primaryAnchor := primaryAnchor w; primaryAnchorMesh := v;
     camera_position := camera_position w; anchor_parent := anchor_parent w;
     meshes := meshes w; uiToolbar_children := uiToolbar_children w;
     annotationObjects := annotationObjects w; ratk_anchors := ratk_anchors w;
     cloud_textFiles := cloud_textFiles w;
     ratk_delete_rejects := ratk_delete_rejects w; trace := trace w |}.

Definition set_camera_position (v : Vector3) (w : World) : World :=
  {| userTextRecords := userTextRecords w; pendingAnchorData := pendingAnchorData w;
     primaryAnchor := primaryAnchor w; primaryAnchorMesh := primaryAnchorMesh w;
     camera_position := v; anchor_parent := anchor_parent w;
     meshes := meshes w; uiToolbar_children := uiToolbar_children w;
     annotationObjects := annotationObjects w; ratk_anchors := ratk_anchors w;
     cloud_textFiles := cloud_textFiles w;
     ratk_delete_rejects := ratk_delete_rejects w; trace := trace w |}.

Definition set_anchor_parent (v : gmap nat Parent) (w : World) : World :=
  {| userTextRecords := userTextRecords w; pendingAnchorData := pendingAnchorData w;
     primaryAnchor := primaryAnchor w; primaryAnchorMesh := primaryAnchorMesh w;
     camera_position := camera_position w; anchor_parent := v;
     meshes := meshes w; uiToolbar_children := uiToolbar_children w;
     annotationObjects := annotationObjects w; ratk_anchors := ratk_anchors w;
     cloud_textFiles := cloud_textFiles w;
     ratk_delete_rejects := ratk_delete_rejects w; trace := trace w |}.

Definition set_meshes (v : list Mesh) (w : World) : World :=
  {| userTextRecords := userTextRecords w; pendingAnchorData := pendingAnchorData w;
     primaryAnchor := primaryAnchor w; primaryAnchorMesh := primaryAnchorMesh w;
     camera_position := camera_position w; anchor_parent := anchor_parent w;
     meshes := v; uiToolbar_children := uiToolbar_children w;
     annotationObjects := annotationObjects w; ratk_anchors := ratk_anchors w;
     cloud_textFiles := cloud_textFiles w;
     ratk_delete_rejects := ratk_delete_rejects w; trace := trace w |}.

Definition set_uiToolbar_children (v : list (option string)) (w : World) : World :=
  {| userTextRecords := userTextRecords w; pendingAnchorData := pendingAnchorData w;
     primaryAnchor := primaryAnchor w; primaryAnchorMesh := primaryAnchorMesh w;
     camera_position := camera_position w; anchor_parent := anchor_parent w;
     meshes := meshes w; uiToolbar_children := v;
     annotationObjects := annotationObjects w; ratk_anchors := ratk_anchors w;
     cloud_textFiles := cloud_textFiles w;
     ratk_delete_rejects := ratk_delete_rejects w; trace := trace w |}.

Definition set_annotationObjects (v : gmap nat AnnotationObject) (w : World) : World :=
  {| userTextRecords := userTextRecords w; pendingAnchorData := pendingAnchorData w;
     primaryAnchor := primaryAnchor w; primaryAnchorMesh := primaryAnchorMesh w;
     camera_position := camera_position w; anchor_parent := anchor_parent w;
     meshes := meshes w; uiToolbar_children := uiToolbar_children w;
     annotationObjects := v; ratk_anchors := ratk_anchors w;
     cloud_textFiles := cloud_textFiles w;
     ratk_delete_rejects := ratk_delete_rejects w; trace := trace w |}.

Definition set_ratk_anchors (v : list Anchor) (w : World) : World :=
  {| userTextRecords := userTextRecords w; pendingAnchorData := pendingAnchorData w;
     primaryAnchor := primaryAnchor w; primaryAnchorMesh := primaryAnchorMesh w;
     camera_position := camera_position w; anchor_parent := anchor_parent w;
     meshes := meshes w; uiToolbar_children := uiToolbar_children w;
     annotationObjects := annotationObjects w; ratk_anchors := v;
     cloud_textFiles := cloud_textFiles w;
     ratk_delete_rejects := ratk_delete_rejects w; trace := trace w |}.

Definition set_trace (v : list Event) (w : World) : World :=
  {| userTextRecords := userTextRecords w; pendingAnchorData := pendingAnchorData w;
     primaryAnchor := primaryAnchor w; primaryAnchorMesh := primaryAnchorMesh w;
     camera_position := camera_position w; anchor_parent := anchor_parent w;
     meshes := meshes w; uiToolbar_children := uiToolbar_children w;
     annotationObjects := annotationObjects w; ratk_anchors := ratk_anchors w;
     cloud_textFiles := cloud_textFiles w;
     ratk_delete_rejects := ratk_delete_rejects w; trace := v |}.

(** ** The monad of handlers

    A computation reads and writes the world and either returns or throws;
    what it wrote before throwing stays written, as in JavaScript.  An
    [async] function is run from its call to the settlement of its promise
    with nothing interleaved at its [await]s: the result [Throw e] is then
    the rejection of that promise. *)

Definition M (A : Type) : Type := World → Completion A * World.

#[global] Instance M_ret : MRet M := λ A a w, (Normal a, w).

#[global] Instance M_bind : MBind M := λ A B f m w,
  match m w with
  | (Normal a, w') => f a w'
  | (Throw e, w') => (Throw e, w')
  end.

Definition gets {A} (f : World → A) : M A := λ w, (Normal (f w), w).
Definition modify (f : World → World) : M unit := λ w, (Normal (), f w).
Definition throw {A} (e : Error) : M A := λ w, (Throw e, w).
Definition emit (ev : Event) : M unit := modify (λ w, set_trace (trace w ++ [ev]) w).

(** [try { body } catch (error) { handler }] *)
Definition try_catch {A} (body : M A) (handler : Error → M A) : M A := λ w,
  match body w with
  | (Normal a, w') => (Normal a, w')
  | (Throw e, w') => handler e w'
  end.

(** [promise.then(cb)], given how [promise] settles: the callback runs on
    fulfilment only, and what it throws rejects the promise made by [then]
    instead of reaching the code that called [then].  The value returned
    is the settlement of the promise made by [then]. *)
Definition promise_then {A B} (p : Completion A) (cb : A → M B) : M (Completion B) := λ w,
  match p with
  | Normal a => let '(r, w') := cb a w in (Normal r, w')
  | Throw e => (Normal (Throw e), w)
  end.

(** ** user_text_records.js *)

(** Modelled from the spec: [fetchAllTextFiles] of [./cloud] is not among
    the sources.  Section 6 gives the remote text store one bulk operation,
    [fetchAllText() -> list<{username, text}>]; as a network call it may
    also reject.  The call is recorded and answers what the store holds. *)
Definition fetchAllTextFiles : M (list TextRecord) := λ w,
  let w' := set_trace (trace w ++ [CallFetchAllTextFiles]) w in
  (cloud_textFiles w, w').

Definition updateUserTextRecords : M unit :=
  textRecords ← fetchAllTextFiles;
  emit (LogTextRecords textRecords).

Definition removeUserTextRecord (username : string) : M unit :=
  records ← gets userTextRecords;
  (if decide (length records = 0) then updateUserTextRecords else mret ());;
  records ← gets userTextRecords;
  match list_find (λ record, record_username record = username) records with
  | None => mret ()
  | Some (index, _) =>
      modify (λ w, set_userTextRecords (delete index (userTextRecords w)) w)
  end.

Definition getUserText (username : string) : M (option string) :=
  records ← gets userTextRecords;
  (if decide (length records = 0) then updateUserTextRecords else mret ());;
  records ← gets userTextRecords;
  match list_find (λ record, record_username record = username) records with
  | None => mret None
  | Some (_, record) =>
      let text := record_text record in
      emit (LogUserText text);;
      mret (Some text)
  end.

(** ** three.js: the parts of the scene graph the handlers touch *)

(** [for (const v of vs) { await body(v) }] and [vs.forEach(body)]: the
    body runs on the elements in order; a throw ends the loop. *)
Fixpoint for_of {A} (vs : list A) (body : A → M unit) : M unit :=
  match vs with
  | [] => mret ()
  | v :: rest => body v;; for_of rest body
  end.

(** [scene.remove(anchor)]: [Object3D.remove] detaches a direct child and
    does nothing for any other object. *)
Definition scene_remove_anchor (anchor : Anchor) : M unit :=
  modify (λ w,
    if decide (anchor_parent w !! anchorID anchor = Some InScene)
    then set_anchor_parent (delete (anchorID anchor) (anchor_parent w)) w
    else w).

(** [scene.remove(mesh)], with the same rule. *)
Definition scene_remove_mesh (mesh : option nat) : M unit :=
  modify (λ w,
    match mesh with
    | None => w
    | Some i =>
        match meshes w !! i with
        | Some m =>
            if decide (mesh_parent m = Some InScene)
            then set_meshes (<[i := {| color := color m; mesh_parent := None |}]> (meshes w)) w
            else w
        | None => w
        end
    end).

(** [scene.add(anchor)]: [Object3D.add] takes the object from its former
    parent and makes it a child of the scene. *)
Definition scene_add_anchor (anchor : Anchor) : M unit :=
  modify (λ w, set_anchor_parent (<[anchorID anchor := InScene]> (anchor_parent w)) w).

(** [new Mesh(geometry, new MeshBasicMaterial({ color }))]: a fresh mesh
    without parent. *)
Definition new_Mesh (c : Z) : M nat := λ w,
  (Normal (length (meshes w)),
   set_meshes (meshes w ++ [{| color := c; mesh_parent := None |}]) w).

(** [anchor.add(mesh)] *)
Definition anchor_add_mesh (anchor : Anchor) (i : nat) : M unit :=
  modify (λ w,
    match meshes w !! i with
    | Some m =>
        set_meshes (<[i := {| color := color m; mesh_parent := Some (InAnchor (anchorID anchor)) |}]> (meshes w)) w
    | None => w
    end).

(** ** index.js *)

(** Modelled from the spec: [loadAnnotationObjects] of
    [./load_annotation_objects] is not among the sources.  Section 4.2 only
    asks that [setPrimary] triggers the loading of the anchor's annotation
    objects; the call is recorded. *)
Definition loadAnnotationObjects (anchor : Anchor) : M unit :=
  emit (CallLoadAnnotationObjects anchor).

(** Modelled from the spec: [startCreatingAnnotationObject] of
    [./annotation_object_creation] is not among the sources.  Section 6
    has it invoked as a terminal action with the anchor and the
    controller's hit-test target; the call is recorded. *)
Definition startCreatingAnnotationObject
    (anchor : option Anchor) (hitTestTarget : option nat) : M unit :=
  emit (CallStartCreatingAnnotationObject anchor hitTestTarget).

(** Reading a field of the annotation object behind a reference.  In
    JavaScript a reference always designates an object; the model throws
    on a reference outside the heap. *)
Definition deref (r : nat) : M AnnotationObject := λ w,
  match annotationObjects w !! r with
  | Some ao => (Normal ao, w)
  | None => (Throw "dangling annotation object", w)
  end.

(** Modelled from the spec: the class of [./annotation_object] is not
    among the sources.  Section 4.1: [setState] transitions the object's
    state, returns the previous state and has no other effect. *)
Definition setState (r : nat) (newState : string) : M string :=
  ao ← deref r;
  modify (λ w, set_annotationObjects
    (<[r := {| ao_username := ao_username ao; ao_state := newState |}]> (annotationObjects w)) w);;
  mret (ao_state ao).

(** [while (uiToolbar.children.length > 0) uiToolbar.remove(uiToolbar.children[0])] *)
Fixpoint remove_children (children : list (option string)) : list (option string) :=
  match children with
  | [] => []
  | _ :: rest => remove_children rest
  end.

Definition clearTextUi : M unit :=
  modify (λ w, set_uiToolbar_children (remove_children (uiToolbar_children w)) w).

(** The toolbar gets two [Text] children: the user name followed by
    [" says:"], and the text ([null] when there is none). *)
Definition updateTextUi (username : string) (text : option string) : M unit :=
  emit (LogUpdateTextUi username text);;
  clearTextUi;;
  modify (λ w, set_uiToolbar_children (uiToolbar_children w ++ [Some (username +:+ " says:")]) w);;
  modify (λ w, set_uiToolbar_children (uiToolbar_children w ++ [text]) w).

(** The loop [for (const hit of hits)] of [handleSelectStart].  The result
    tells whether the handler returned from inside the loop. *)
Fixpoint scanHits (hits : list Hit) : M bool :=
  match hits with
  | [] => mret false
  | hit :: rest =>
      match object hit ≫= annotationObject with
      | Some r =>
          ao ← deref r;
          (if decide (ao_state ao = "complete") then
             setState r "playing";;
             text ← getUserText (ao_username ao);
             updateTextUi (ao_username ao) text
           else if decide (ao_state ao = "playing") then
             setState r "complete";;
             clearTextUi
           else mret ());;
          mret true
      | None => scanHits rest
      end
  end.

(** [handleSelectStart(e)] called on a controller: [handedness] is
    [e.data.handedness], [hitTestTarget] is [this.hitTestTarget], and
    [hits] is what [raycaster.intersectObjects(primaryAnchor.children, true)]
    reports, nearest first. *)
Definition handleSelectStart
    (handedness : string) (hitTestTarget : option nat) (hits : list Hit) : M unit :=
  emit (LogController (if decide (handedness = "left") then 0 else 1));;
  primary ← gets primaryAnchor;
  returned ← match primary with
             | Some _ => emit (LogRaycasterHits hits);; scanHits hits
             | None => mret false
             end;
  if (returned : bool) then mret ()
  else startCreatingAnnotationObject primary hitTestTarget.

(** [ratk.persistentAnchors] *)
Definition ratk_persistentAnchors (w : World) : list Anchor :=
  filter (λ a, isPersistent a = true) (ratk_anchors w).

(** [ratk.deleteAnchor(anchor)], after the contract of section 6: the
    anchor leaves the tracking collaborator's set, or the call rejects and
    the set stays as it is.  The two events bracket the asynchronous call. *)
Definition ratk_deleteAnchor (anchor : Anchor) : M unit :=
  emit (CallDeleteAnchor (anchorID anchor));;
  rejects ← gets ratk_delete_rejects;
  match rejects !! anchorID anchor with
  | Some e => throw e
  | None =>
      modify (λ w, set_ratk_anchors
        (filter (λ a, anchorID a ≠ anchorID anchor) (ratk_anchors w)) w);;
      emit (SettledDeleteAnchor (anchorID anchor))
  end.

Definition handleSqueezeStart : M unit :=
  anchors ← gets ratk_persistentAnchors;
  for_of anchors (λ anchor,
    emit (LogDeletingPersistentAnchor (anchorID anchor));;
    ratk_deleteAnchor anchor);;
  cameraPosition ← gets camera_position;
  let positionClone := {| x := x cameraPosition; y := num0; z := z cameraPosition |} in
  modify (set_pendingAnchorData
    (Some {| position := positionClone; quaternion := new_Quaternion |})).

Definition buildAnchorMarker (anchor : Anchor) (isRecovered : bool) : M unit :=
  mesh ← new_Mesh (if isRecovered then 0xff0000 else 0x00ff00)%Z;
  modify (set_primaryAnchorMesh (Some mesh));;
  anchor_add_mesh anchor mesh;;
  scene_add_anchor anchor;;
  emit (LogAnchorCreated (anchorID anchor) (isPersistent anchor) isRecovered).

Definition setPrimaryAnchor (anchor : Anchor) (isRecovered : bool) : M unit :=
  previous ← gets primaryAnchor;
  match previous with
  | Some old =>
      scene_remove_anchor old;;
      mesh ← gets primaryAnchorMesh;
      scene_remove_mesh mesh
  | None => mret ()
  end;;
  modify (set_primaryAnchor (Some anchor));;
  emit (LogPrimaryAnchor anchor);;
  buildAnchorMarker anchor isRecovered;;
  loadAnnotationObjects anchor.

(** [handlePendingAnchors()], called by [render] on every frame.  The
    request to [ratk.createAnchor] is recorded; its promise settles later. *)
Definition handlePendingAnchors : M unit :=
  pending ← gets pendingAnchorData;
  match pending with
  | Some data =>
      emit (CallCreateAnchor (position data) (quaternion data) true);;
      modify (set_pendingAnchorData None)
  | None => mret ()
  end.

(** The callback given to [then] in [handlePendingAnchors], run when the
    promise of [createAnchor] is fulfilled with [anchor]. *)
Definition handlePendingAnchors_then (anchor : Anchor) : M unit :=
  setPrimaryAnchor anchor false.

(** How a call to a function that returns a promise ends: it throws before
    returning, or returns a promise that is later fulfilled or rejected. *)
Inductive CallOutcome (A : Type) : Type :=
| Throws (e : Error)
| Returns (p : Completion A).
Arguments Throws {A} e.
Arguments Returns {A} p.

(** Adding to a JavaScript [Set]: present elements keep their place. *)
Definition set_add (s : list Anchor) (a : Anchor) : list Anchor :=
  if decide (a ∈ s) then s else s ++ [a].

(** [ratk.restorePersistentAnchors()], after the contract of section 6:
    on fulfilment the restored anchors have joined [ratk.anchors]. *)
Definition ratk_restorePersistentAnchors
    (outcome : CallOutcome (list Anchor)) : M (Completion unit) :=
  emit CallRestorePersistentAnchors;;
  match outcome with
  | Throws e => throw e
  | Returns (Throw e) => mret (Throw e)
  | Returns (Normal restored) =>
      modify (λ w, set_ratk_anchors (foldl set_add (ratk_anchors w) restored) w);;
      mret (Normal ())
  end.

(** The function given to [setTimeout] by the [sessionstart] listener of
    [setupRATK].  The outer completion is that of the function itself; the
    value it returns here is the settlement of the promise made by [then],
    which nothing in the program observes. *)
Definition setupRATK_sessionstart_timeout
    (outcome : CallOutcome (list Anchor)) : M (Completion unit) :=
  try_catch
    (p ← ratk_restorePersistentAnchors outcome;
     promise_then p (λ _,
       anchors ← gets ratk_anchors;
       emit (LogRestoredPersistentAnchors anchors);;
       for_of anchors (λ anchor, setPrimaryAnchor anchor true)))
    (λ error, emit (ErrorRestoringAnchors error);; throw error).

(** ** The module at load time *)

(** 1.6 and 3 as binary64 values. *)
Definition num1_6 : number := S754_finite false 7205759403792794 (-52).
Definition num3 : number := S754_finite false 6755399441055744 (-51).

(** The world once the modules are loaded: no text record, no pending
    request, no primary anchor, the camera at (0, 1.6, 3).  [store] is what
    the remote text store answers. *)
Definition cold_start (store : Completion (list TextRecord)) : World :=
  {| userTextRecords := []; pendingAnchorData := None;
     primaryAnchor := None; primaryAnchorMesh := None;
     camera_position := {| x := num0; y := num1_6; z := num3 |};
     anchor_parent := ∅; meshes := []; uiToolbar_children := [];
     annotationObjects := ∅; ratk_anchors := [];
     cloud_textFiles := store; ratk_delete_rejects := ∅; trace := [] |}.

(** The record of the scenario of section 8. *)
Definition ana_hello : TextRecord :=
  {| record_username := "ana"; record_text := "hello" |}.

(** A cache of three records, two of them of user "ana". *)
Definition three_records : list TextRecord :=
  [ {| record_username := "bob"; record_text := "first" |};
    {| record_username := "ana"; record_text := "second" |};
    {| record_username := "ana"; record_text := "third" |} ].

Definition world_three_records : World :=
  set_userTextRecords three_records (cold_start (Throw "offline")).

(** The number of bulk fetches recorded in a trace. *)

Fixpoint fetches (t : list Event) : nat :=
  match t with
  | [] => 0
  | CallFetchAllTextFiles :: rest => S (fetches rest)
  | _ :: rest => fetches rest
  end.

(** The number of times the creation workflow was started. *)
Fixpoint creations (t : list Event) : nat :=
  match t with
  | [] => 0
  | CallStartCreatingAnnotationObject _ _ :: rest => S (creations rest)
  | _ :: rest => creations rest
  end.

(** The requests made to [ratk.createAnchor], oldest first. *)
Fixpoint createAnchor_calls (t : list Event) : list (Vector3 * Quaternion * bool) :=
  match t with
  | [] => []
  | CallCreateAnchor p q persistent :: rest => (p, q, persistent) :: createAnchor_calls rest
  | _ :: rest => createAnchor_calls rest
  end.

(** The markers built, as [buildAnchorMarker] logs them: anchor, persistence
    and the [isRecovered] flag, oldest first. *)
Fixpoint markers_built (t : list Event) : list (nat * bool * bool) :=
  match t with
  | [] => []
  | LogAnchorCreated id persistent isRecovered :: rest =>
      (id, persistent, isRecovered) :: markers_built rest
  | _ :: rest => markers_built rest
  end.

(** The annotation object a hit carries, if any:
    [hit.object && hit.object.annotationObject]. *)
Definition carried (hit : Hit) : option nat := object hit ≫= annotationObject.

(** An annotation object with its state replaced. *)
Definition with_state (ao : AnnotationObject) (s : string) : AnnotationObject :=
  {| ao_username := ao_username ao; ao_state := s |}.

(** A hit on the object behind reference [r], and a hit on plain geometry. *)
Definition hit_on (r : nat) : Hit := {| object := Some {| annotationObject := Some r |} |}.
Definition hit_plain : Hit := {| object := Some {| annotationObject := None |} |}.

(** An anchor is attached to the scene when the scene is its parent. *)
Definition attached (w : World) (id : nat) : Prop :=
  anchor_parent w !! id = Some InScene.

(** The scene holds no anchor but the primary one, and no mesh of the heap
    of markers is a direct child of the scene. *)
Definition scene_ok (w : World) : Prop :=
  (∀ id, attached w id → ∃ a, primaryAnchor w = Some a ∧ anchorID a = id)
  ∧ (∀ i m, meshes w !! i = Some m → mesh_parent m ≠ Some InScene).

(** The marker kept in [primaryAnchorMesh] hangs on [anchor] and has the
    colour that goes with [isRecovered]. *)
Definition marker_shows (w : World) (anchor : Anchor) (isRecovered : bool) : Prop :=
  ∃ i m, primaryAnchorMesh w = Some i
         ∧ meshes w !! i = Some m
         ∧ mesh_parent m = Some (InAnchor (anchorID anchor))
         ∧ color m = (if isRecovered then 0xff0000 else 0x00ff00)%Z.

(** The world once [scene.remove(primaryAnchor)] has run for the former
    primary anchor, if there was one. *)
Definition detached (previous : option Anchor) (w : World) : World :=
  match previous with
  | Some old =>
      if decide (anchor_parent w !! anchorID old = Some InScene)
      then set_anchor_parent (delete (anchorID old) (anchor_parent w)) w
      else w
  | None => w
  end.

(** What one round of the deletion loop of [handleSqueezeStart] leaves in
    the trace when the deletion succeeds. *)
Definition deletion_events (anchor : Anchor) : list Event :=
  [ LogDeletingPersistentAnchor (anchorID anchor);
    CallDeleteAnchor (anchorID anchor);
    SettledDeleteAnchor (anchorID anchor) ].

(** The environment lets every persistent anchor be deleted. *)
Definition deletions_succeed (w : World) : Prop :=
  ∀ a, a ∈ ratk_persistentAnchors w → ratk_delete_rejects w !! anchorID a = None.

(** A position with its [y] set to 0. *)
Definition on_floor (p : Vector3) : Vector3 := {| x := x p; y := num0; z := z p |}.

(** A sequence of calls [setPrimaryAnchor(anchor, isRecovered)]. *)
Definition setPrimaryAnchor_all (calls : list (Anchor * bool)) : M unit :=
  for_of calls (λ call, setPrimaryAnchor call.1 call.2).

(** [n] frames: [handlePendingAnchors] as [render] calls it. *)
Fixpoint frames (n : nat) (w : World) : World :=
  match n with
  | 0 => w
  | S k => frames k (handlePendingAnchors w).2
  end.

(** A world with primary anchor 1 and one annotation object of user "ana"
    in state [s], before any text was fetched. *)
Definition world_with_object (s : string) (store : Completion (list TextRecord)) : World :=
  set_annotationObjects {[ 5 := {| ao_username := "ana"; ao_state := s |} ]}
    (set_primaryAnchor (Some {| anchorID := 1; isPersistent := true |})
       (cold_start store)).

(** A world in which RATK knows two persistent anchors and a transient one. *)
Definition world_two_persistent : World :=
  set_ratk_anchors
    [ {| anchorID := 1; isPersistent := true |};
      {| anchorID := 2; isPersistent := false |};
      {| anchorID := 3; isPersistent := true |} ]
    (cold_start (Normal [])).

(** ** Further definitions: callers of the text store *)

(** A call of one of the three functions user_text_records.js exports. *)
Inductive TextCall :=
| GetUserText (username : string)
| RemoveUserTextRecord (username : string)
| UpdateUserTextRecords.

Definition text_call (call : TextCall) : M (option string) :=
  match call with
  | GetUserText username => getUserText username
  | RemoveUserTextRecord username => removeUserTextRecord username;; mret None
  | UpdateUserTextRecords => updateUserTextRecords;; mret None
  end.

(** Calls made one after the other, each awaited by its own caller: a
    rejected call does not keep the later ones from running. *)
Fixpoint text_calls (calls : list TextCall) (w : World)
    : list (Completion (option string)) * World :=
  match calls with
  | [] => ([], w)
  | call :: rest =>
      let '(r, w1) := text_call call w in
      let '(rs, w2) := text_calls rest w1 in
      (r :: rs, w2)
  end.

(** A call that gave no text: it returned [null] or [undefined], or it was
    rejected. *)
Definition no_text (r : Completion (option string)) : Prop :=
  r = Normal None ∨ ∃ e, r = Throw e.

(** The first record of a user in a list, as [Array.prototype.find] gives it. *)
Definition first_record (username : string) (records : list TextRecord) : option TextRecord :=
  snd <$> list_find (λ record, record_username record = username) records.

(** ** Further definitions: what a select gesture leaves alone *)

(** From [w] to [w'] nothing changed but the trace, the annotation objects
    and the toolbar, and no anchor was requested. *)
Definition select_frame (w w' : World) : Prop :=
  w' = set_trace (trace w')
         (set_annotationObjects (annotationObjects w')
            (set_uiToolbar_children (uiToolbar_children w') w))
  ∧ createAnchor_calls (trace w') = createAnchor_calls (trace w).

(** A computation that, from any world, leaves alone what [select_frame]
    leaves alone. *)
Definition keeps_anchors {A} (m : M A) : Prop := ∀ w, select_frame w (m w).2.

(** The marker [buildAnchorMarker] makes for one call of [setPrimaryAnchor]. *)
Definition marker_of (call : Anchor * bool) : Mesh :=
  {| color := (if call.2 then 0xff0000 else 0x00ff00)%Z;
     mesh_parent := Some (InAnchor (anchorID call.1)) |}.

(** The error lines written by the restoration. *)
Fixpoint errors_logged (t : list Event) : list Error :=
  match t with
  | [] => []
  | ErrorRestoringAnchors e :: rest => e :: errors_logged rest
  | _ :: rest => errors_logged rest
  end.

(** A world whose primary anchor 1 is persistent, known to RATK and
    attached to the scene. *)
Definition world_primary_persistent : World :=
  set_anchor_parent {[ 1 := InScene ]}
    (set_primaryAnchor (Some {| anchorID := 1; isPersistent := true |})
       world_two_persistent).

(** A world in which the device refuses to delete anchor 3. *)
Definition world_refusing_3 : World :=
  {| userTextRecords := []; pendingAnchorData := None;
     primaryAnchor := None; primaryAnchorMesh := None;
     camera_position := {| x := num0; y := num1_6; z := num3 |};
     anchor_parent := ∅; meshes := []; uiToolbar_children := [];
     annotationObjects := ∅;
     ratk_anchors := [ {| anchorID := 1; isPersistent := true |};
                       {| anchorID := 3; isPersistent := true |};
                       {| anchorID := 4; isPersistent := true |} ];
     cloud_textFiles := Normal []; ratk_delete_rejects := {[ 3 := "device busy" ]};
     trace := [] |}.

(** ** Further definitions: effects over any state *)

(** The monad [M] with the world replaced by a state of any type: what
    the functions below touch is not part of [World]. *)
Definition Eff (S A : Type) : Type := S → Completion A * S.

Definition eff_ret {S A} (a : A) : Eff S A := λ s, (Normal a, s).

Definition eff_bind {S A B} (m : Eff S A) (f : A → Eff S B) : Eff S B := λ s,
  match m s with
  | (Normal a, s') => f a s'
  | (Throw e, s') => (Throw e, s')
  end.

Definition eff_seq {S A B} (m : Eff S A) (k : Eff S B) : Eff S B :=
  eff_bind m (λ _, k).

Definition eff_throw {S A} (e : Error) : Eff S A := λ s, (Throw e, s).

(** [await promise] for a promise that settles as [p]. *)
Definition eff_await {S A} (p : Completion A) : Eff S A := λ s, (p, s).

(** [try { body } catch (error) { handler }] *)
Definition eff_try {S A} (body : Eff S A) (handler : Error → Eff S A) : Eff S A := λ s,
  match body s with
  | (Normal a, s') => (Normal a, s')
  | (Throw e, s') => handler e s'
  end.

(** A line added to a log kept as the state. *)
Definition eff_log {L} (line : L) : Eff (list L) unit := λ s, (Normal (), s ++ [line]).

(** ** Further definitions: [fetchAllAudioFiles] of index.js *)

Inductive AudioLine :=
| CallFetchAllPreSignedUrls (assetKey : string)
| LogPreSignedUrls (preSignedUrls : list string)
| ErrorFailedToFetchAudioFiles (error : Error).

(** Modelled from the spec: [fetchAllPreSignedUrls] of [./fetchurl] is not
    among the sources.  Section 1 has the cloud download of audio blobs as
    an outside collaborator; the call is recorded and settles as [answer]. *)
Definition fetchAllPreSignedUrls
    (answer : Completion (list string)) (assetKey : string)
    : Eff (list AudioLine) (list string) :=
  eff_seq (eff_log (CallFetchAllPreSignedUrls assetKey)) (eff_await answer).

(** The result is [undefined] ([None]) when the function ends without
    [return]. *)
Definition fetchAllAudioFiles (answer : Completion (list string))
    : Eff (list AudioLine) (option (list string)) :=
  eff_try
    (let assetKey := "sound.webm" in
     eff_bind (fetchAllPreSignedUrls answer assetKey) (λ preSignedUrls,
     eff_seq (eff_log (LogPreSignedUrls preSignedUrls))
       (eff_ret (Some preSignedUrls))))
    (λ error,
     eff_seq (eff_log (ErrorFailedToFetchAudioFiles error)) (eff_ret None)).

(** ** Further definitions: controllers of index.js *)

Inductive TargetLine :=
| CallCreateHitTestTargetFromControllerSpace (handedness : string)
| CallDeleteHitTestTarget (hitTestTarget : option nat)
| AddHitTestMarker (hitTestTarget : nat).

(** [this.hitTestTarget] of every controller, by the index of the
    controller (no entry: [undefined] or [null]), and the calls made. *)
Record Rig := {
  rig_hitTestTarget : gmap nat nat;
  rig_lines : list TargetLine
}.

(** [handleControllerConnected(event)] on controller [this]: the request
    to RATK is made; its promise settles later. *)
Definition handleControllerConnected (this : nat) (handedness : string) (s : Rig) : Rig :=
  {| rig_hitTestTarget := rig_hitTestTarget s;
     rig_lines := rig_lines s ++ [CallCreateHitTestTargetFromControllerSpace handedness] |}.

(** The callback given to [then] in [handleControllerConnected], run when
    the promise is fulfilled with [hitTestTarget]. *)
Definition handleControllerConnected_then (this : nat) (hitTestTarget : nat) (s : Rig) : Rig :=
  {| rig_hitTestTarget := <[this := hitTestTarget]> (rig_hitTestTarget s);
     rig_lines := rig_lines s ++ [AddHitTestMarker hitTestTarget] |}.

(** [handleControllerDisconnected()] on controller [this]; [deleted] is
    how the call of [ratk.deleteHitTestTarget] ends. *)
Definition handleControllerDisconnected (this : nat) (deleted : Completion unit)
    : Eff Rig unit := λ s,
  let s1 := {| rig_hitTestTarget := rig_hitTestTarget s;
               rig_lines := rig_lines s
                 ++ [CallDeleteHitTestTarget (rig_hitTestTarget s !! this)] |} in
  match deleted with
  | Throw e => (Throw e, s1)
  | Normal _ =>
      (Normal (),
       {| rig_hitTestTarget := delete this (rig_hitTestTarget s1);
          rig_lines := rig_lines s1 |})
  end.

(** ** Further definitions: [setupController] of index.js *)

Inductive SceneNode := NodeController (index : nat) | NodeGrip (index : nat).

#[global] Instance SceneNode_eq_dec : EqDecision SceneNode.
Proof. solve_decision. Defined.

(** What [setupController] touches: the module variable [controller], the
    event types each controller has a listener for, the children of the
    scene among controllers and grips, the number of controller models in
    each grip and the number of lines on each controller. *)
Record Setup := {
  setup_controller : option nat;
  setup_listeners : gmap nat (list string);
  setup_scene : list SceneNode;
  setup_grip_models : gmap nat nat;
  setup_controller_lines : gmap nat nat
}.

(** [EventDispatcher.addEventListener]: a listener already registered for
    the type is not registered again.  Each type has one handler here. *)
Definition addEventListener (type : string) (types : list string) : list string :=
  if decide (type ∈ types) then types else types ++ [type].

(** [Object3D.add]: the node leaves its place among the children, if it
    has one, and goes to the end. *)
Definition scene_add (node : SceneNode) (children : list SceneNode) : list SceneNode :=
  filter (λ c, c ≠ node) children ++ [node].

Definition setupController (controllerIndex : nat) (s : Setup) : Setup :=
  let types := default [] (setup_listeners s !! controllerIndex) in
  let types := addEventListener "connected" types in
  let types := addEventListener "disconnected" types in
  let types := addEventListener "selectstart" types in
  let types := addEventListener "squeezestart" types in
  (* const controllerGrip = renderer.xr.getControllerGrip(0) *)
  let grip := 0 in
  {| setup_controller := Some controllerIndex;
     setup_listeners := <[controllerIndex := types]> (setup_listeners s);
     setup_scene := scene_add (NodeGrip grip)
                      (scene_add (NodeController controllerIndex) (setup_scene s));
     setup_grip_models :=
       <[grip := S (default 0 (setup_grip_models s !! grip))]> (setup_grip_models s);
     setup_controller_lines :=
       <[controllerIndex := S (default 0 (setup_controller_lines s !! controllerIndex))]>
         (setup_controller_lines s) |}.

(** [setupController(0); setupController(1)] of [init], and any other
    sequence of indices. *)
Definition setupControllers (indices : list nat) (s : Setup) : Setup :=
  foldl (λ acc index, setupController index acc) s indices.

(** The controller is a child of the scene and has a listener for each of
    the four events. *)
Definition controller_ready (s : Setup) (index : nat) : Prop :=
  NodeController index ∈ setup_scene s
  ∧ ∀ type, type ∈ ["connected"; "disconnected"; "selectstart"; "squeezestart"] →
            type ∈ default [] (setup_listeners s !! index).

Definition setup_start : Setup :=
  {| setup_controller := None; setup_listeners := ∅; setup_scene := [];
     setup_grip_models := ∅; setup_controller_lines := ∅ |}.

(** ** Further definitions: the second index.js (sphere and sound) *)

(** Arithmetic and comparison of JavaScript numbers: binary64, rounding
    to nearest, ties to even. *)
Definition js_add (a b : number) : number := SFadd 53 1024 a b.
Definition js_mul (a b : number) : number := SFmul 53 1024 a b.
Definition js_lt (a b : number) : bool := SFltb a b.
Definition js_neg (a : number) : number := SFopp a.

(** 10, 0.1 and 10.1 as binary64 values. *)
Definition num10 : number := S754_finite false 5629499534213120 (-49).
Definition num0_1 : number := S754_finite false 7205759403792794 (-56).
Definition num10_1 : number := S754_finite false 5685794529555251 (-49).

(** [let speed = 0.1] *)
Definition speed : number := num0_1.

(** [sphere.position.x], the module variable [direction], and the [x] of
    the position last given to [sphereSound.setPosition]. *)
Record Sphere := {
  sphere_position_x : number;
  direction : number;
  sound_position_x : option number
}.

Definition animateSphere (s : Sphere) : Sphere :=
  let position_x := js_add (sphere_position_x s) (js_mul speed (direction s)) in
  {| sphere_position_x := position_x;
     direction :=
       (if js_lt num10 position_x || js_lt position_x (js_neg num10)
        then js_mul (direction s) (js_neg num1)
        else direction s);
     sound_position_x := Some position_x |}.

(** The sphere as [setupScene] makes it, [x] being 0, with [direction]
    at 1 and no position given to the sound yet. *)
Definition sphere_start : Sphere :=
  {| sphere_position_x := num0; direction := num1; sound_position_x := None |}.

(** [n] frames of [render], as far as the sphere goes. *)
Fixpoint animate (n : nat) (s : Sphere) : Sphere :=
  match n with
  | 0 => s
  | S k => animate k (animateSphere s)
  end.

#[global] Instance number_eq_dec : EqDecision number.
Proof. solve_decision. Defined.

(** The sphere is within reach: [x] strictly between -10.1 and 10.1,
    [direction] 1 or -1, and the sound where the sphere is. *)
Definition sphere_in_range (s : Sphere) : bool :=
  js_lt (js_neg num10_1) (sphere_position_x s)
  && js_lt (sphere_position_x s) num10_1
  && (bool_decide (direction s = num1) || bool_decide (direction s = js_neg num1)).

(** The states of the first [n] frames, the start included. *)
Fixpoint orbit (n : nat) (s : Sphere) : list Sphere :=
  match n with
  | 0 => []
  | S k => s :: orbit k (animateSphere s)
  end.

Record Blob := { blob_type : string }.

(** The answer of [fetch]: [ok], [status], and how [response.blob()]
    settles. *)
Record Response := {
  response_ok : bool;
  response_status : nat;
  response_blob : Completion Blob
}.

Inductive SoundLine :=
| CallFetch (url : string)
| CallSoundLoad (blob : Blob)
| LogLoadedAudio
| CallSoundPlay.

(** The [async] function [setupScene] calls at once: [fetched] is how
    [fetch] settles and [loaded] how [sphereSound.load(blob)] does. *)
Definition setupScene_load_sound
    (fetched : Completion Response) (loaded : Completion unit)
    : Eff (list SoundLine) unit :=
  eff_bind (eff_seq (eff_log (CallFetch "assets/example.webm")) (eff_await fetched))
    (λ response,
  if negb (response_ok response)
  then eff_throw ("HTTP error! Status: " +:+ pretty (response_status response))
  else
  eff_bind (eff_await (response_blob response)) (λ blob,
  if decide (blob_type blob ≠ "video/webm")
  then eff_throw "Fetched file is not a WebM video"
  else
  eff_seq (eff_seq (eff_log (CallSoundLoad blob)) (eff_await loaded))
    (eff_seq (eff_log LogLoadedAudio) (eff_log CallSoundPlay)))).

(** * Properties of user_text_records.js *)

(** Unfolding the operations of the monad. *)
Ltac run :=
  repeat progress
    (unfold mbind, mret, M_bind, M_ret, gets, emit, modify, throw in *;
     cbn beta iota zeta delta [fst snd] in *).

Lemma fetches_app (t1 t2 : list Event) :
  fetches (t1 ++ t2) = fetches t1 + fetches t2.
Proof.
  induction t1 as [|ev t1 IH]; [done|].
  destruct ev; cbn; rewrite ?IH; lia.
Qed.

Section user_text_records.

Implicit Types (w : World) (username : string).

(** The bulk fetch never reaches the cache: whatever the store answers,
    [userTextRecords] is as before. *)
Lemma updateUserTextRecords_records w :
  userTextRecords (updateUserTextRecords w).2 = userTextRecords w.
Proof.
  unfold updateUserTextRecords, fetchAllTextFiles. run.
  by destruct (cloud_textFiles w).
Qed.

Lemma updateUserTextRecords_fetches w :
  fetches (trace (updateUserTextRecords w).2) = S (fetches (trace w)).
Proof.
  unfold updateUserTextRecords, fetchAllTextFiles. run.
  destruct (cloud_textFiles w); cbn; rewrite !fetches_app; cbn; lia.
Qed.

(** With an empty cache [getUserText] fetches once and, when the fetch is
    answered, returns [null] whatever the store holds. *)
Lemma getUserText_empty_cache username w records :
  userTextRecords w = [] →
  cloud_textFiles w = Normal records →
  ∃ w', getUserText username w = (Normal None, w')
        ∧ userTextRecords w' = []
        ∧ cloud_textFiles w' = Normal records
        ∧ fetches (trace w') = S (fetches (trace w)).
Proof.
  intros Hempty Hstore.
  unfold getUserText, updateUserTextRecords, fetchAllTextFiles. run.
  rewrite Hempty; cbn. case_decide; [|done]. rewrite Hstore; cbn.
  rewrite Hempty; cbn. eexists; split; [reflexivity|].
  cbn. rewrite !fetches_app. cbn. repeat split; try done. lia.
Qed.

(** C1 (as the code behaves): after a cold start with the store holding
    [{username: "ana", text: "hello"}], the first [getUserText("ana")]
    performs one bulk fetch and returns [null], not ["hello"]; the second
    call fetches again and returns [null] as well.  The fetched records
    are logged and dropped, so the cache is never filled. *)
Theorem getUserText_cold_start_never_caches :
  let first := getUserText "ana" (cold_start (Normal [ana_hello])) in
  let second := getUserText "ana" first.2 in
  first.1 = Normal None ∧ fetches (trace first.2) = 1
  ∧ userTextRecords first.2 = []
  ∧ second.1 = Normal None ∧ fetches (trace second.2) = 2.
Proof. vm_compute. done. Qed.

(** [removeUserTextRecord] leaves the cache as it is unless it finds the
    user, and then deletes at the index found. *)
Lemma removeUserTextRecord_records username w :
  userTextRecords (removeUserTextRecord username w).2 =
  match list_find (λ record, record_username record = username) (userTextRecords w) with
  | Some (index, _) => delete index (userTextRecords w)
  | None => userTextRecords w
  end.
Proof.
  unfold removeUserTextRecord. run.
  case_decide as Hlen.
  - pose proof (updateUserTextRecords_records w) as Hupd.
    apply length_zero_iff_nil in Hlen.
    destruct (updateUserTextRecords w) as [[[]|e] w1]; cbn in *.
    + rewrite Hupd, Hlen. cbn. by rewrite Hupd.
    + by rewrite Hupd, Hlen.
  - cbn. by destruct (list_find _ _) as [[index record]|].
Qed.

(** C10: when no cached record carries [username],
    [removeUserTextRecord(username)] leaves the list of records unchanged;
    when one does, exactly the first such record is removed and all the
    others stay in place and in order. *)
Theorem removeUserTextRecord_frame username w :
  let records := userTextRecords w in
  let records' := userTextRecords (removeUserTextRecord username w).2 in
  (Forall (λ record, record_username record ≠ username) records →
   records' = records)
  ∧ (∀ before record after,
       records = before ++ record :: after →
       Forall (λ r, record_username r ≠ username) before →
       record_username record = username →
       records' = before ++ after).
Proof.
  cbn zeta. rewrite removeUserTextRecord_records. split.
  - intros Hnone.
    assert (list_find (λ r, record_username r = username) (userTextRecords w)
            = None) as Hfind by by apply list_find_None.
    by rewrite Hfind.
  - intros before record after Hsplit Hbefore Hmatch.
    assert (list_find (λ r, record_username r = username) (userTextRecords w)
            = Some (length before, record)) as Hfind.
    { rewrite Hsplit. apply list_find_Some. split_and!.
      - by rewrite list_lookup_middle.
      - done.
      - intros j other Hj Hlt. rewrite lookup_app_l in Hj by done.
        rewrite Forall_lookup in Hbefore. by eapply Hbefore. }
    rewrite Hfind, Hsplit. apply delete_middle.
Qed.

(** The theorem at a cache with two records of "ana": removing "ana"
    drops the first of them only, removing "zed" changes nothing. *)
Lemma removeUserTextRecord_frame_witness :
  userTextRecords (removeUserTextRecord "zed" world_three_records).2 = three_records
  ∧ userTextRecords (removeUserTextRecord "ana" world_three_records).2 =
    [ {| record_username := "bob"; record_text := "first" |};
      {| record_username := "ana"; record_text := "third" |} ].
Proof.
  split.
  - apply (removeUserTextRecord_frame "zed" world_three_records).
    repeat constructor; discriminate.
  - apply (proj2 (removeUserTextRecord_frame "ana" world_three_records)
             [ {| record_username := "bob"; record_text := "first" |} ]
             {| record_username := "ana"; record_text := "second" |}
             [ {| record_username := "ana"; record_text := "third" |} ]).
    + reflexivity.
    + repeat constructor; discriminate.
    + reflexivity.
Defined.

End user_text_records.

(** * Properties of the select gesture *)

Section select.

Implicit Types (w : World) (hits : list Hit) (handedness : string).

Lemma creations_app (t1 t2 : list Event) :
  creations (t1 ++ t2) = creations t1 + creations t2.
Proof.
  induction t1 as [|ev t1 IH]; [done|].
  destruct ev; cbn; rewrite ?IH; lia.
Qed.

Lemma run_bind {A B} (m : M A) (f : A → M B) w :
  (m ≫= f) w =
  match m w with
  | (Normal a, w') => f a w'
  | (Throw e, w') => (Throw e, w')
  end.
Proof. reflexivity. Qed.

Lemma set_trace_id w : set_trace (trace w) w = w.
Proof. by destruct w. Qed.

(** [getUserText] writes to the trace only, and never starts the
    creation workflow. *)
Lemma getUserText_frame username w :
  let w' := (getUserText username w).2 in
  w' = set_trace (trace w') w ∧ creations (trace w') = creations (trace w).
Proof.
  unfold getUserText, updateUserTextRecords, fetchAllTextFiles. run.
  case_decide as Hlen; cbn.
  - destruct (cloud_textFiles w) as [records|e]; cbn.
    + destruct (list_find _ _) as [[index record]|]; cbn;
        rewrite !creations_app; cbn; split; (done || lia).
    + rewrite !creations_app; cbn; split; (done || lia).
  - destruct (list_find _ _) as [[index record]|]; cbn.
    + rewrite !creations_app; cbn; split; (done || lia).
    + by rewrite set_trace_id.
Qed.

(** Hits without annotation data are passed over. *)
Lemma scanHits_skip before rest w :
  Forall (λ hit, carried hit = None) before →
  scanHits (before ++ rest) w = scanHits rest w.
Proof.
  induction 1 as [|hit before Hhit _ IH]; [done|].
  cbn. unfold carried in Hhit. by rewrite Hhit.
Qed.

(** Without any annotation data the loop ends without returning. *)
Lemma scanHits_none hits w :
  Forall (λ hit, carried hit = None) hits →
  scanHits hits w = (Normal false, w).
Proof.
  intros Hnone. rewrite <- (app_nil_r hits). by rewrite scanHits_skip.
Qed.

(** The first hit with annotation data decides the gesture: the loop
    returns there (or the text fetch throws), the creation workflow is not
    reached, and only the object hit may change state. *)
Lemma scanHits_annotated hit after r ao w :
  carried hit = Some r →
  annotationObjects w !! r = Some ao →
  let res := scanHits (hit :: after) w in
  (res.1 = Normal true ∨ ∃ e, res.1 = Throw e)
  ∧ creations (trace res.2) = creations (trace w)
  ∧ (ao_state ao = "complete" →
     annotationObjects res.2 = <[r := with_state ao "playing"]> (annotationObjects w))
  ∧ (ao_state ao = "playing" →
     res.1 = Normal true
     ∧ annotationObjects res.2 = <[r := with_state ao "complete"]> (annotationObjects w))
  ∧ (ao_state ao ≠ "complete" → ao_state ao ≠ "playing" →
     res = (Normal true, w)).
Proof.
  intros Hhit Hao. unfold carried in Hhit. cbn. rewrite Hhit.
  unfold setState, deref, updateTextUi, clearTextUi. run. rewrite Hao.
  destruct (decide (ao_state ao = "complete")) as [Hc|Hc].
  - rewrite Hao.
    match goal with |- context [getUserText ?u ?v] =>
      destruct (getUserText_frame u v) as [Hframe Hcre];
      destruct (getUserText u v) as [[text|e] w2] end;
      cbn in *; rewrite Hframe; cbn; rewrite ?creations_app, ?Hcre; cbn.
    + split_and!; eauto with lia; intros; congruence.
    + split_and!; eauto with lia; intros; congruence.
  - destruct (decide (ao_state ao = "playing")) as [Hp|Hp].
    + rewrite Hao. cbn. split_and!; eauto with lia; done.
    + cbn. split_and!; eauto with lia; done.
Qed.

(** C2 (as stated) fails: in the world right after loading, where no
    primary anchor exists, a select gesture does start the creation
    workflow, with no anchor. *)
Lemma handleSelectStart_no_anchor_counterexample :
  primaryAnchor (cold_start (Normal [])) = None
  ∧ creations (trace (handleSelectStart "right" (Some 7) [] (cold_start (Normal []))).2) = 1
  ∧ CallStartCreatingAnnotationObject None (Some 7)
      ∈ trace (handleSelectStart "right" (Some 7) [] (cold_start (Normal []))).2.
Proof. vm_compute. split_and!; [done..|]. set_solver. Qed.

(** C2 (amended): while no primary anchor exists, a select gesture casts no
    ray, changes no annotation object and fetches no text; it logs the
    controller and starts the creation workflow once, with a null anchor
    and the controller's hit-test target.  Nothing else in the world
    changes, and the handler throws nothing before that call. *)
Theorem handleSelectStart_without_primary handedness hitTestTarget hits w :
  primaryAnchor w = None →
  handleSelectStart handedness hitTestTarget hits w =
  (Normal (),
   set_trace (trace w ++ [ LogController (if decide (handedness = "left") then 0 else 1);
                           CallStartCreatingAnnotationObject None hitTestTarget ]) w).
Proof.
  intros Hnone. unfold handleSelectStart, startCreatingAnnotationObject. run.
  cbn. rewrite Hnone. cbn. by rewrite <- app_assoc.
Qed.

Lemma handleSelectStart_without_primary_witness :
  handleSelectStart "left" (Some 7) [hit_on 5] (cold_start (Normal [])) =
  (Normal (),
   set_trace [ LogController 0; CallStartCreatingAnnotationObject None (Some 7) ]
     (cold_start (Normal []))).
Proof.
  apply (handleSelectStart_without_primary "left" (Some 7) [hit_on 5]
           (cold_start (Normal []))).
  reflexivity.
Defined.

(** C3: with a primary anchor, the scan of the hits, nearest first, stops
    at the first hit that carries annotation data.  The object it carries
    goes from "complete" to "playing" or from "playing" to "complete" and
    no other object changes; in any other state nothing changes at all.
    In each of these cases the creation workflow is not started.  When no
    hit carries annotation data, the gesture starts the creation workflow
    with the primary anchor and the controller's hit-test target. *)
Theorem handleSelectStart_first_annotated_hit handedness hitTestTarget hits w anchor :
  primaryAnchor w = Some anchor →
  let res := handleSelectStart handedness hitTestTarget hits w in
  (∀ before hit after r ao,
     hits = before ++ hit :: after →
     Forall (λ h, carried h = None) before →
     carried hit = Some r →
     annotationObjects w !! r = Some ao →
     creations (trace res.2) = creations (trace w)
     ∧ (ao_state ao = "complete" →
        annotationObjects res.2 = <[r := with_state ao "playing"]> (annotationObjects w))
     ∧ (ao_state ao = "playing" →
        res.1 = Normal ()
        ∧ annotationObjects res.2 = <[r := with_state ao "complete"]> (annotationObjects w))
     ∧ (ao_state ao ≠ "complete" → ao_state ao ≠ "playing" →
        res.1 = Normal () ∧ annotationObjects res.2 = annotationObjects w))
  ∧ (Forall (λ h, carried h = None) hits →
     res.1 = Normal ()
     ∧ annotationObjects res.2 = annotationObjects w
     ∧ trace res.2 = trace w ++
         [ LogController (if decide (handedness = "left") then 0 else 1);
           LogRaycasterHits hits;
           CallStartCreatingAnnotationObject (Some anchor) hitTestTarget ]).
Proof.
  intros Hprimary. cbn zeta.
  unfold handleSelectStart, startCreatingAnnotationObject. run.
  cbn. rewrite Hprimary. cbn. split.
  - intros before hit after r ao -> Hbefore Hhit Hao.
    rewrite scanHits_skip by done.
    match goal with |- context [scanHits (hit :: after) ?v] =>
      destruct (scanHits_annotated hit after r ao v Hhit Hao)
        as (Hres & Hcre & Hcomplete & Hplaying & Hother);
      destruct (scanHits (hit :: after) v) as [[returned|e] w2] end;
      cbn in *.
    + assert (returned = true) as ->
        by (destruct Hres as [[=]|[e [=]]]; done).
      cbn. rewrite Hcre, !creations_app. cbn.
      split_and!; [lia|done| |].
      * intros Hp. by destruct (Hplaying Hp).
      * intros Hc Hp. specialize (Hother Hc Hp). by simplify_eq.
    + rewrite Hcre, !creations_app. cbn. split_and!; [lia|done| |].
      * intros Hp. by destruct (Hplaying Hp).
      * intros Hc Hp. by specialize (Hother Hc Hp).
  - intros Hnone. rewrite scanHits_none by done. cbn.
    by rewrite <- !app_assoc.
Qed.

Lemma handleSelectStart_first_annotated_hit_witness :
  let w := world_with_object "complete" (Normal [ana_hello]) in
  annotationObjects (handleSelectStart "right" None [hit_plain; hit_on 5; hit_on 5] w).2
  = <[5 := {| ao_username := "ana"; ao_state := "playing" |}]> (annotationObjects w).
Proof.
  cbn zeta.
  destruct (handleSelectStart_first_annotated_hit "right" None
              [hit_plain; hit_on 5; hit_on 5]
              (world_with_object "complete" (Normal [ana_hello]))
              {| anchorID := 1; isPersistent := true |} eq_refl) as [Hfirst _].
  destruct (Hfirst [hit_plain] (hit_on 5) [hit_on 5] 5
              {| ao_username := "ana"; ao_state := "complete" |}
              eq_refl ltac:(repeat constructor) eq_refl eq_refl)
    as (_ & Hcomplete & _).
  apply Hcomplete. reflexivity.
Defined.

(** C8 (as stated) fails: the object is "complete", the bulk fetch is
    rejected with "network down".  The handler's promise is rejected with
    that error, and the trace ends with the call of the fetch: nothing is
    logged about the failure. *)
Lemma handleSelectStart_fetch_failure_counterexample :
  let res := handleSelectStart "right" None [hit_on 5]
               (world_with_object "complete" (Throw "network down")) in
  res.1 = Throw "network down"
  ∧ trace res.2 = [ LogController 1; LogRaycasterHits [hit_on 5]; CallFetchAllTextFiles ].
Proof. vm_compute. done. Qed.

(** C8 (amended): when the first annotated hit is on a "complete" object,
    the cache is empty and the bulk fetch is rejected with [e], the object
    has become "playing" and stays so, but the rejection is neither caught
    nor logged: the handler's promise is rejected with [e], the trace ends
    with the call of the fetch, and the text shown in the toolbar is not
    touched.  Later gestures are handled as usual. *)
Theorem handleSelectStart_fetch_failure
    handedness hitTestTarget hits w anchor before hit after r ao e :
  primaryAnchor w = Some anchor →
  hits = before ++ hit :: after →
  Forall (λ h, carried h = None) before →
  carried hit = Some r →
  annotationObjects w !! r = Some ao →
  ao_state ao = "complete" →
  userTextRecords w = [] →
  cloud_textFiles w = Throw e →
  handleSelectStart handedness hitTestTarget hits w =
  (Throw e,
   set_trace (trace w ++ [ LogController (if decide (handedness = "left") then 0 else 1);
                           LogRaycasterHits hits;
                           CallFetchAllTextFiles ])
     (set_annotationObjects (<[r := with_state ao "playing"]> (annotationObjects w)) w)).
Proof.
  intros Hprimary -> Hbefore Hhit Hao Hstate Hcache Hstore.
  unfold handleSelectStart. run. cbn. rewrite Hprimary. cbn.
  rewrite scanHits_skip by done. unfold carried in Hhit. cbn. rewrite Hhit.
  unfold setState, deref, getUserText, updateUserTextRecords, fetchAllTextFiles.
  run. cbn. rewrite Hao. rewrite decide_True by done. cbn.
  rewrite Hao. cbn. rewrite Hcache. cbn. rewrite decide_True by done.
  cbn. rewrite Hstore. cbn.
  unfold with_state. by rewrite <- !app_assoc.
Qed.

Lemma handleSelectStart_fetch_failure_witness :
  let w := world_with_object "complete" (Throw "network down") in
  (handleSelectStart "right" None [hit_plain; hit_on 5] w).1 = Throw "network down"
  ∧ annotationObjects (handleSelectStart "right" None [hit_plain; hit_on 5] w).2 !! 5
    = Some {| ao_username := "ana"; ao_state := "playing" |}.
Proof.
  cbn zeta.
  rewrite (handleSelectStart_fetch_failure "right" None [hit_plain; hit_on 5]
             (world_with_object "complete" (Throw "network down"))
             {| anchorID := 1; isPersistent := true |}
             [hit_plain] (hit_on 5) [] 5
             {| ao_username := "ana"; ao_state := "complete" |} "network down"
             eq_refl eq_refl ltac:(repeat constructor) eq_refl eq_refl
             eq_refl eq_refl eq_refl).
  split; reflexivity.
Defined.

End select.

(** * Properties of the primary anchor *)

Section primary_anchor.

Implicit Types (w : World) (anchor : Anchor) (isRecovered : bool).

Lemma markers_built_app (t1 t2 : list Event) :
  markers_built (t1 ++ t2) = markers_built t1 ++ markers_built t2.
Proof.
  induction t1 as [|ev t1 IH]; [done|].
  destruct ev; cbn; by rewrite ?IH.
Qed.

(** No marker is a direct child of the scene, so [scene.remove] of the
    marker finds nothing to detach. *)
Lemma scene_remove_mesh_noop mesh w :
  (∀ i m, meshes w !! i = Some m → mesh_parent m ≠ Some InScene) →
  scene_remove_mesh mesh w = (Normal (), w).
Proof.
  intros Hmeshes. unfold scene_remove_mesh. run.
  destruct mesh as [i|]; [|done].
  destruct (meshes w !! i) as [m|] eqn:Hm; [|done].
  by rewrite decide_False by by eapply Hmeshes.
Qed.

(** What [buildAnchorMarker] leaves behind. *)
Lemma buildAnchorMarker_spec anchor isRecovered w :
  buildAnchorMarker anchor isRecovered w =
  (Normal (),
   set_trace (trace w ++ [LogAnchorCreated (anchorID anchor) (isPersistent anchor) isRecovered])
     (set_anchor_parent (<[anchorID anchor := InScene]> (anchor_parent w))
        (set_meshes (meshes w ++
                       [ {| color := (if isRecovered then 0xff0000 else 0x00ff00)%Z;
                            mesh_parent := Some (InAnchor (anchorID anchor)) |} ])
           (set_primaryAnchorMesh (Some (length (meshes w))) w)))).
Proof.
  unfold buildAnchorMarker, new_Mesh, anchor_add_mesh, scene_add_anchor. run.
  cbn. rewrite list_lookup_middle by done. cbn.
  rewrite insert_app_r_alt by done. by rewrite Nat.sub_diag.
Qed.

(** The first step of [setPrimaryAnchor]: the former primary anchor
    leaves the scene. *)
Lemma setPrimaryAnchor_detach previous w :
  (∀ i m, meshes w !! i = Some m → mesh_parent m ≠ Some InScene) →
  match previous with
  | Some old =>
      scene_remove_anchor old;;
      mesh ← gets primaryAnchorMesh;
      scene_remove_mesh mesh
  | None => mret ()
  end w = (Normal (), detached previous w).
Proof.
  intros Hmeshes. destruct previous as [old|]; [|done].
  unfold scene_remove_anchor. run. cbn.
  apply scene_remove_mesh_noop. intros i m. case_decide; cbn; apply Hmeshes.
Qed.

Lemma detached_frame previous w :
  meshes (detached previous w) = meshes w
  ∧ trace (detached previous w) = trace w
  ∧ ratk_anchors (detached previous w) = ratk_anchors w.
Proof. destruct previous as [old|]; cbn; [case_decide|]; done. Qed.

Lemma detached_primary w id :
  scene_ok w → ¬ attached (detached (primaryAnchor w) w) id.
Proof.
  intros [Hscene _]. unfold attached.
  destruct (primaryAnchor w) as [old|] eqn:Hold; cbn.
  - case_decide as Hparent; cbn; intros Hid.
    + destruct (decide (id = anchorID old)) as [->|Hne].
      * by rewrite lookup_delete_eq in Hid.
      * rewrite lookup_delete_ne in Hid by done.
        destruct (Hscene id Hid) as (a & Ha & <-). congruence.
    + destruct (Hscene id Hid) as (a & Ha & <-). congruence.
  - intros Hid. by destruct (Hscene id Hid) as (a & Ha & _).
Qed.

(** One call of [setPrimaryAnchor] keeps the scene in order and installs
    the anchor with its marker. *)
Lemma setPrimaryAnchor_step anchor isRecovered w :
  scene_ok w →
  ∃ w', setPrimaryAnchor anchor isRecovered w = (Normal (), w')
        ∧ scene_ok w'
        ∧ primaryAnchor w' = Some anchor
        ∧ attached w' (anchorID anchor)
        ∧ marker_shows w' anchor isRecovered
        ∧ markers_built (trace w') =
          markers_built (trace w) ++ [(anchorID anchor, isPersistent anchor, isRecovered)]
        ∧ ratk_anchors w' = ratk_anchors w.
Proof.
  intros Hok. pose proof Hok as [Hscene Hmeshes].
  pose proof (detached_primary w) as Hp1.
  destruct (detached_frame (primaryAnchor w) w) as (Hm1 & Ht1 & Hr1).
  unfold setPrimaryAnchor.
  rewrite run_bind. cbn [gets].
  rewrite run_bind, setPrimaryAnchor_detach by done.
  rewrite run_bind. unfold modify at 1. rewrite run_bind. unfold emit, modify at 1.
  rewrite run_bind, buildAnchorMarker_spec. unfold loadAnnotationObjects. run. cbn.
  eexists; split; [reflexivity|]. cbn. rewrite Hm1, Ht1, Hr1.
  split_and!; try done.
  - split; cbn.
    + intros id Hid. unfold attached in Hid. cbn in Hid.
      destruct (decide (id = anchorID anchor)) as [->|Hne]; [by eexists|].
      rewrite lookup_insert_ne in Hid by done. by destruct (Hp1 id).
    + intros i m Hi. apply lookup_app_Some in Hi as [Hi|[_ Hi]].
      * by eapply Hmeshes.
      * destruct (i - length (meshes w)); [|done]. cbn in Hi. injection Hi as <-. cbn. discriminate.
  - unfold attached. cbn. by rewrite lookup_insert_eq.
  - exists (length (meshes w)),
      {| color := (if isRecovered then 0xff0000 else 0x00ff00)%Z;
         mesh_parent := Some (InAnchor (anchorID anchor)) |}.
    cbn. split_and!; try done.
    by rewrite list_lookup_middle.
  - rewrite !markers_built_app. cbn. by rewrite !app_nil_r.
Qed.

(** A sequence of calls keeps the scene in order; the last call decides
    the primary anchor and the marker. *)
Lemma setPrimaryAnchor_all_spec calls w :
  scene_ok w →
  ∃ w', setPrimaryAnchor_all calls w = (Normal (), w')
        ∧ scene_ok w'
        ∧ (∀ anchor isRecovered, last calls = Some (anchor, isRecovered) →
             primaryAnchor w' = Some anchor
             ∧ attached w' (anchorID anchor)
             ∧ marker_shows w' anchor isRecovered)
        ∧ (calls = [] → w' = w)
        ∧ markers_built (trace w') =
          markers_built (trace w)
            ++ map (λ call, (anchorID call.1, isPersistent call.1, call.2)) calls
        ∧ ratk_anchors w' = ratk_anchors w.
Proof.
  revert w. induction calls as [|[anchor isRecovered] calls IH]; intros w Hok.
  - exists w. split_and!; try done. by rewrite app_nil_r.
  - destruct (setPrimaryAnchor_step anchor isRecovered w Hok)
      as (w1 & Hrun1 & Hok1 & Hprimary1 & Hattached1 & Hmarker1 & Hbuilt1 & Hratk1).
    destruct (IH w1 Hok1) as (w' & Hrun & Hok' & Hlast & Hnil & Hbuilt & Hratk).
    exists w'. unfold setPrimaryAnchor_all in *. cbn [for_of].
    rewrite run_bind. cbn [fst snd]. rewrite Hrun1.
    split_and!; try done.
    + intros a r Hl. destruct calls as [|call calls].
      * cbn in Hl. injection Hl as <- <-. by rewrite (Hnil eq_refl).
      * by apply Hlast.
    + rewrite Hbuilt, Hbuilt1. cbn. by rewrite <- app_assoc.
    + congruence.
Qed.

(** The anchor delivered by [createAnchor] becomes primary, with the marker
    of a newly created anchor. *)
Lemma handlePendingAnchors_then_installs anchor w :
  scene_ok w →
  let res := handlePendingAnchors_then anchor w in
  res.1 = Normal ()
  ∧ primaryAnchor res.2 = Some anchor
  ∧ marker_shows res.2 anchor false.
Proof.
  intros Hok. unfold handlePendingAnchors_then.
  by destruct (setPrimaryAnchor_step anchor false w Hok)
    as (w' & -> & _ & Hprimary & _ & Hmarker & _).
Qed.

(** The world right after loading has its scene in order. *)
Lemma cold_start_scene_ok store : scene_ok (cold_start store).
Proof.
  split.
  - intros id Hid. unfold attached in Hid. cbn in Hid.
    by rewrite lookup_empty in Hid.
  - intros i m Hi. by destruct i.
Defined.

(** X22: start from a scene that holds no anchor but the primary one, and
    take any sequence of calls of [setPrimaryAnchor] (every prefix of a
    sequence is one).  Afterwards at most one anchor is attached to the
    scene and it is the primary anchor; the first step of a further call,
    the two calls of [scene.remove], leaves no anchor attached; and after
    a non-empty sequence the primary anchor is the anchor of the last
    call, it is attached, and the marker built for it, the one kept in
    [primaryAnchorMesh], is 0xff0000 (red) when that call had
    [isRecovered] true, 0x00ff00 (green) when false.  Nothing is said here
    of the markers built by earlier calls. *)
Theorem setPrimaryAnchor_single_primary (calls : list (Anchor * bool)) w :
  scene_ok w →
  let res := setPrimaryAnchor_all calls w in
  res.1 = Normal ()
  ∧ (∀ id1 id2, attached res.2 id1 → attached res.2 id2 → id1 = id2)
  ∧ (∀ id, attached res.2 id → ∃ a, primaryAnchor res.2 = Some a ∧ anchorID a = id)
  ∧ (∀ i m, meshes res.2 !! i = Some m → mesh_parent m ≠ Some InScene)
  ∧ (∀ id, ¬ attached (detached (primaryAnchor res.2) res.2) id)
  ∧ (∀ anchor isRecovered,
       last calls = Some (anchor, isRecovered) →
       primaryAnchor res.2 = Some anchor
       ∧ attached res.2 (anchorID anchor)
       ∧ marker_shows res.2 anchor isRecovered).
Proof.
  intros Hok. cbn zeta.
  destruct (setPrimaryAnchor_all_spec calls w Hok)
    as (w' & -> & Hok' & Hlast & _).
  pose proof Hok' as [Hscene Hmeshes].
  cbn. split_and!; try done.
  - intros id1 id2 H1 H2.
    destruct (Hscene id1 H1) as (a1 & Ha1 & <-).
    destruct (Hscene id2 H2) as (a2 & Ha2 & <-). congruence.
  - intros id. by apply detached_primary.
Qed.

Lemma setPrimaryAnchor_single_primary_witness :
  let a1 := {| anchorID := 1; isPersistent := true |} in
  let a2 := {| anchorID := 2; isPersistent := true |} in
  let res := setPrimaryAnchor_all [(a1, false); (a2, true)] (cold_start (Normal [])) in
  primaryAnchor res.2 = Some a2
  ∧ attached res.2 2
  ∧ ¬ attached res.2 1
  ∧ marker_shows res.2 a2 true.
Proof.
  cbn zeta.
  destruct (setPrimaryAnchor_single_primary
              [({| anchorID := 1; isPersistent := true |}, false);
               ({| anchorID := 2; isPersistent := true |}, true)]
              (cold_start (Normal [])) (cold_start_scene_ok (Normal [])))
    as (_ & _ & Hprimary & _ & _ & Hlast).
  destruct (Hlast {| anchorID := 2; isPersistent := true |} true eq_refl)
    as (Hp & Ha & Hm).
  split_and!; [exact Hp|exact Ha| |exact Hm].
  intros H1. destruct (Hprimary 1 H1) as (a & Hsome & Hid).
  rewrite Hp in Hsome. injection Hsome as <-. discriminate.
Defined.

(** [scene.remove] of the former marker detaches nothing, as the marker is
    a child of its anchor.  When the same anchor object is installed again
    its earlier marker is therefore still on it next to the new one;
    [primaryAnchorMesh] is the new one. *)
Remark setPrimaryAnchor_same_anchor_again :
  let a := {| anchorID := 1; isPersistent := true |} in
  let res := setPrimaryAnchor_all [(a, false); (a, true)] (cold_start (Normal [])) in
  meshes res.2 =
    [ {| color := 0x00ff00; mesh_parent := Some (InAnchor 1) |};
      {| color := 0xff0000; mesh_parent := Some (InAnchor 1) |} ]
  ∧ primaryAnchorMesh res.2 = Some 1.
Proof. vm_compute. done. Qed.

(** C4 (as the code behaves): the same anchor object installed twice,
    first with [isRecovered] false, then with [isRecovered] true, from the
    world right after loading.  Both calls return; the anchor is the
    primary anchor and the only anchor attached to the scene; and it
    carries two markers: the red one of the second call, kept in
    [primaryAnchorMesh], and the green one of the first call, which
    [scene.remove(primaryAnchorMesh)] did not take away.  So the former
    marker is still in the scene, and a marker on the attached primary
    anchor has the colour of a flag that is not the most recent one. *)
Theorem setPrimaryAnchor_reinstalled_keeps_old_marker :
  let a := {| anchorID := 1; isPersistent := true |} in
  let res := setPrimaryAnchor_all [(a, false); (a, true)] (cold_start (Normal [])) in
  res.1 = Normal ()
  ∧ primaryAnchor res.2 = Some a
  ∧ anchor_parent res.2 = {[ 1 := InScene ]}
  ∧ attached res.2 1
  ∧ primaryAnchorMesh res.2 = Some 1
  ∧ meshes res.2 !! 1 = Some {| color := 0xff0000; mesh_parent := Some (InAnchor 1) |}
  ∧ meshes res.2 !! 0 = Some {| color := 0x00ff00; mesh_parent := Some (InAnchor 1) |}
  ∧ markers_built (trace res.2) = [(1, true, false); (1, true, true)].
Proof. vm_compute. done. Qed.

End primary_anchor.

(** * Properties of the squeeze gesture and of the frame tick *)

Section squeeze.

Implicit Types (w : World) (anchors : list Anchor).

Lemma createAnchor_calls_app (t1 t2 : list Event) :
  createAnchor_calls (t1 ++ t2) = createAnchor_calls t1 ++ createAnchor_calls t2.
Proof.
  induction t1 as [|ev t1 IH]; [done|].
  destruct ev; cbn; by rewrite ?IH.
Qed.

Lemma createAnchor_calls_deletions anchors :
  createAnchor_calls (flat_map deletion_events anchors) = [].
Proof. induction anchors as [|a anchors IH]; [done|]. by cbn. Qed.

Lemma filter_all {A} (P : A → Prop) `{!∀ v, Decision (P v)} (l : list A) :
  (∀ v, v ∈ l → P v) → filter P l = l.
Proof.
  induction l as [|v l IH]; intros Hall; [done|].
  rewrite filter_cons_True by (apply Hall; left).
  f_equal. apply IH. intros u Hu. apply Hall. by right.
Qed.

(** The deletion loop, when no deletion is refused: the anchors leave the
    collaborator's set one after the other, each deletion settled before
    the next is requested, and nothing else changes. *)
Lemma delete_loop anchors w :
  (∀ a, a ∈ anchors → ratk_delete_rejects w !! anchorID a = None) →
  for_of anchors (λ anchor,
    emit (LogDeletingPersistentAnchor (anchorID anchor));;
    ratk_deleteAnchor anchor) w =
  (Normal (),
   set_trace (trace w ++ flat_map deletion_events anchors)
     (set_ratk_anchors
        (filter (λ a, anchorID a ∉ anchorID <$> anchors) (ratk_anchors w)) w)).
Proof.
  revert w. induction anchors as [|anchor anchors IH]; intros w Hallowed.
  - cbn. rewrite app_nil_r, filter_all; [by destruct w|].
    intros v _. apply not_elem_of_nil.
  - cbn [for_of]. rewrite run_bind.
    assert ((emit (LogDeletingPersistentAnchor (anchorID anchor));;
             ratk_deleteAnchor anchor) w =
            (Normal (),
             set_trace (trace w ++ deletion_events anchor)
               (set_ratk_anchors
                  (filter (λ a, anchorID a ≠ anchorID anchor) (ratk_anchors w)) w)))
      as ->.
    { unfold ratk_deleteAnchor. run. cbn.
      rewrite (Hallowed anchor) by left. cbn.
      unfold deletion_events. by rewrite <- !app_assoc. }
    rewrite IH by (intros a Ha; cbn; apply Hallowed; by right).
    f_equal. unfold set_trace, set_ratk_anchors. cbn. f_equal.
    + rewrite list_filter_filter. apply list_filter_iff.
      intros a. rewrite not_elem_of_cons. tauto.
    + by rewrite <- app_assoc.
Qed.

(** [handleSqueezeStart], when no deletion is refused. *)
Lemma handleSqueezeStart_spec w :
  deletions_succeed w →
  handleSqueezeStart w =
  (Normal (),
   set_pendingAnchorData
     (Some {| position := on_floor (camera_position w); quaternion := new_Quaternion |})
     (set_trace (trace w ++ flat_map deletion_events (ratk_persistentAnchors w))
        (set_ratk_anchors
           (filter (λ a, anchorID a ∉ (anchorID <$> ratk_persistentAnchors w))
              (ratk_anchors w)) w))).
Proof.
  intros Hallowed. unfold handleSqueezeStart.
  rewrite run_bind. cbn [gets]. rewrite run_bind, delete_loop by done.
  by run.
Qed.

(** Once the loop is through, no persistent anchor is left. *)
Lemma no_persistent_left (l : list Anchor) :
  filter (λ a, isPersistent a = true)
    (filter (λ a, anchorID a ∉ (anchorID <$> filter (λ a, isPersistent a = true) l)) l)
  = [].
Proof.
  rewrite list_filter_filter.
  apply elem_of_nil_inv. intros a [[Hp Hid] Ha]%list_elem_of_filter.
  apply Hid, list_elem_of_fmap. exists a. split; [done|].
  by apply list_elem_of_filter.
Qed.

(** Frames without a pending request leave the world alone. *)
Lemma frames_idle n w : pendingAnchorData w = None → frames n w = w.
Proof.
  induction n as [|n IH]; [done|]. intros Hnone. cbn.
  unfold handlePendingAnchors. run. rewrite Hnone. cbn. by apply IH.
Qed.

(** C6: when the device refuses no deletion, a squeeze gesture deletes
    the persistent anchors one at a time, each deletion settled before the
    next is requested, so that the handler completes with no persistent
    anchor left in the tracking collaborator's set; it then records a
    pending request at the camera position with [y] set to 0 and with the
    identity quaternion.  With two persistent anchors this is the scenario
    of section 8. *)
Theorem handleSqueezeStart_deletes_then_requests w :
  deletions_succeed w →
  let res := handleSqueezeStart w in
  res.1 = Normal ()
  ∧ ratk_persistentAnchors res.2 = []
  ∧ trace res.2 = trace w ++ flat_map deletion_events (ratk_persistentAnchors w)
  ∧ pendingAnchorData res.2 =
    Some {| position := {| x := x (camera_position w); y := num0;
                           z := z (camera_position w) |};
            quaternion := {| qx := num0; qy := num0; qz := num0; qw := num1 |} |}.
Proof.
  intros Hallowed. cbn zeta. rewrite handleSqueezeStart_spec by done.
  cbn. split_and!; try done. apply no_persistent_left.
Qed.

Lemma handleSqueezeStart_deletes_then_requests_witness :
  let res := handleSqueezeStart world_two_persistent in
  length (ratk_persistentAnchors world_two_persistent) = 2
  ∧ res.1 = Normal ()
  ∧ ratk_persistentAnchors res.2 = []
  ∧ trace res.2 =
    [ LogDeletingPersistentAnchor 1; CallDeleteAnchor 1; SettledDeleteAnchor 1;
      LogDeletingPersistentAnchor 3; CallDeleteAnchor 3; SettledDeleteAnchor 3 ]
  ∧ pendingAnchorData res.2 =
    Some {| position := {| x := num0; y := num0; z := num3 |};
            quaternion := new_Quaternion |}.
Proof.
  cbn zeta. split; [reflexivity|].
  apply (handleSqueezeStart_deletes_then_requests world_two_persistent).
  intros a _. reflexivity.
Defined.

(** C5: two squeeze gestures complete before the next frame, the camera
    being at [p1] for the first and at [p2] for the second.  The second
    request has replaced the first; the frame issues one [createAnchor]
    call, for a persistent anchor at [p2] brought to the floor, and clears
    the pending slot, so that no later frame issues a call again. *)
Theorem two_requests_one_createAnchor w p1 p2 n :
  deletions_succeed w →
  let w1 := (handleSqueezeStart (set_camera_position p1 w)).2 in
  let w2 := (handleSqueezeStart (set_camera_position p2 w1)).2 in
  let w3 := (handlePendingAnchors w2).2 in
  pendingAnchorData w1 =
    Some {| position := on_floor p1; quaternion := new_Quaternion |}
  ∧ pendingAnchorData w2 =
    Some {| position := on_floor p2; quaternion := new_Quaternion |}
  ∧ createAnchor_calls (trace w3) =
    createAnchor_calls (trace w) ++ [(on_floor p2, new_Quaternion, true)]
  ∧ pendingAnchorData w3 = None
  ∧ createAnchor_calls (trace (frames n w3)) = createAnchor_calls (trace w3).
Proof.
  intros Hallowed. cbn zeta.
  rewrite (handleSqueezeStart_spec (set_camera_position p1 w)) by done.
  cbn [snd].
  rewrite handleSqueezeStart_spec.
  2:{ intros a Ha. unfold ratk_persistentAnchors in Ha. cbn in Ha.
      fold (ratk_persistentAnchors w) in Ha.
      pose proof (no_persistent_left (ratk_anchors w)) as Hleft.
      unfold ratk_persistentAnchors in Ha. rewrite Hleft in Ha.
      by apply elem_of_nil in Ha. }
  cbn. unfold handlePendingAnchors. run. cbn.
  rewrite !createAnchor_calls_app, !createAnchor_calls_deletions, !app_nil_r.
  split_and!; try done.
  rewrite frames_idle by done. cbn.
  by rewrite !createAnchor_calls_app, !createAnchor_calls_deletions, !app_nil_r.
Qed.

Lemma two_requests_one_createAnchor_witness :
  let p1 := {| x := num1; y := num1_6; z := num3 |} in
  let p2 := {| x := num3; y := num1_6; z := num1 |} in
  let w1 := (handleSqueezeStart (set_camera_position p1 world_two_persistent)).2 in
  let w2 := (handleSqueezeStart (set_camera_position p2 w1)).2 in
  createAnchor_calls (trace (frames 3 (handlePendingAnchors w2).2)) =
  [({| x := num3; y := num0; z := num1 |}, new_Quaternion, true)].
Proof.
  cbn zeta.
  destruct (two_requests_one_createAnchor world_two_persistent
              {| x := num1; y := num1_6; z := num3 |}
              {| x := num3; y := num1_6; z := num1 |} 3)
    as (_ & _ & Hcalls & _ & Hlater).
  - intros a _. reflexivity.
  - cbn zeta in Hlater. rewrite Hlater. exact Hcalls.
Defined.

End squeeze.

(** * Properties of the restoration at session start *)

Section restoration.

Implicit Types (w : World) (restored anchors : list Anchor).

Lemma for_of_fmap {A B} (f : A → B) (l : list A) (body : B → M unit) :
  for_of (f <$> l) body = for_of l (λ v, body (f v)).
Proof. induction l as [|v l IH]; [done|]. cbn. by rewrite IH. Qed.

Lemma set_add_keeps anchors a b : a ∈ anchors → a ∈ set_add anchors b.
Proof.
  intros Ha. unfold set_add. case_decide; [done|].
  apply elem_of_app. by left.
Qed.

Lemma set_add_all_keeps restored anchors a :
  a ∈ anchors → a ∈ foldl set_add anchors restored.
Proof.
  revert anchors. induction restored as [|b restored IH]; intros anchors Ha; [done|].
  cbn. by apply IH, set_add_keeps.
Qed.

(** Every restored anchor is in [ratk.anchors] afterwards. *)
Lemma set_add_all_adds restored anchors a :
  a ∈ restored → a ∈ foldl set_add anchors restored.
Proof.
  revert anchors. induction restored as [|b restored IH]; intros anchors Ha.
  - by apply elem_of_nil in Ha.
  - cbn. apply elem_of_cons in Ha as [->|Ha]; [|by apply IH].
    apply set_add_all_keeps. unfold set_add. case_decide; [done|].
    apply elem_of_app. right. by left.
Qed.

(** Into an empty set, distinct anchors go in the order given. *)
Lemma set_add_all_fresh restored anchors :
  NoDup (anchors ++ restored) → foldl set_add anchors restored = anchors ++ restored.
Proof.
  revert anchors. induction restored as [|b restored IH]; intros anchors Hnodup.
  - by rewrite app_nil_r.
  - cbn. apply NoDup_app in Hnodup as (Hanchors & Hdisjoint & Hrestored).
    unfold set_add at 2. rewrite decide_False.
    2:{ intros Hb. apply (Hdisjoint b Hb). by left. }
    rewrite IH; [by rewrite <- app_assoc|].
    rewrite <- app_assoc. cbn. apply NoDup_app. split_and!; try done.
Qed.

(** C7: when the restoration is fulfilled, the callback installs every
    anchor of [ratk.anchors], which holds all the restored ones, through
    [setPrimaryAnchor(anchor, true)] in the order of the set; afterwards
    at most one anchor is attached to the scene, and the primary anchor is
    the last one processed, with a marker for a recovered anchor.  After a
    cold start [ratk.anchors] holds the restored anchors only, in their
    order. *)
Theorem restoration_leaves_last_primary restored w :
  scene_ok w →
  let anchors := foldl set_add (ratk_anchors w) restored in
  let res := setupRATK_sessionstart_timeout (Returns (Normal restored)) w in
  res.1 = Normal (Normal ())
  ∧ (∀ a, a ∈ restored → a ∈ anchors)
  ∧ (ratk_anchors w = [] → NoDup restored → anchors = restored)
  ∧ markers_built (trace res.2) =
    markers_built (trace w) ++ ((λ a, (anchorID a, isPersistent a, true)) <$> anchors)
  ∧ (∀ id1 id2, attached res.2 id1 → attached res.2 id2 → id1 = id2)
  ∧ (∀ a, last anchors = Some a →
       primaryAnchor res.2 = Some a
       ∧ attached res.2 (anchorID a)
       ∧ marker_shows res.2 a true).
Proof.
  intros Hok. cbn zeta.
  unfold setupRATK_sessionstart_timeout, try_catch, ratk_restorePersistentAnchors.
  rewrite !run_bind. run. cbn.
  set (anchors := foldl set_add (ratk_anchors w) restored).
  set (w1 := set_trace _ _).
  assert (scene_ok w1) as Hok1 by (destruct Hok; split; done).
  destruct (setPrimaryAnchor_all_spec ((λ a, (a, true)) <$> anchors) w1 Hok1)
    as (w' & Hrun & [Hscene Hmeshes] & Hlast & _ & Hbuilt & _).
  unfold setPrimaryAnchor_all in Hrun. rewrite for_of_fmap in Hrun.
  cbn [fst snd] in Hrun. rewrite Hrun. cbn.
  split_and!; try done.
  - intros a Ha. by apply set_add_all_adds.
  - intros Hempty Hnodup. subst anchors. rewrite Hempty.
    by apply (set_add_all_fresh restored []).
  - rewrite Hbuilt. subst w1. cbn.
    rewrite !markers_built_app. cbn. rewrite !app_nil_r.
    f_equal. rewrite <- list_fmap_compose. done.
  - intros id1 id2 H1 H2.
    destruct (Hscene id1 H1) as (a1 & Ha1 & <-).
    destruct (Hscene id2 H2) as (a2 & Ha2 & <-). congruence.
  - intros a Ha. apply Hlast. by rewrite fmap_last, Ha.
Qed.

(** C9 (as the code behaves): when the promise of
    [restorePersistentAnchors] is rejected with [e], the [catch] block is
    not entered: the function given to [setTimeout] returns normally, the
    console gets no error line, and the rejection stays with the promise
    made by [then], which nothing handles.  The restoration is not tried
    again. *)
Theorem restoration_rejection_escapes_catch e w :
  setupRATK_sessionstart_timeout (Returns (Throw e)) w =
  (Normal (Throw e), set_trace (trace w ++ [CallRestorePersistentAnchors]) w).
Proof. reflexivity. Qed.

(** The [catch] block is reached by an exception thrown before a promise
    is returned: that one is logged and thrown again. *)
Lemma restoration_synchronous_throw_rethrown e w :
  setupRATK_sessionstart_timeout (Throws e) w =
  (Throw e,
   set_trace (trace w ++ [CallRestorePersistentAnchors; ErrorRestoringAnchors e]) w).
Proof.
  unfold setupRATK_sessionstart_timeout, try_catch, ratk_restorePersistentAnchors.
  run. cbn. by rewrite <- app_assoc.
Qed.

Lemma restoration_leaves_last_primary_witness :
  let a1 := {| anchorID := 1; isPersistent := true |} in
  let a2 := {| anchorID := 2; isPersistent := true |} in
  let a3 := {| anchorID := 3; isPersistent := true |} in
  let res := setupRATK_sessionstart_timeout (Returns (Normal [a1; a2; a3]))
               (cold_start (Normal [])) in
  primaryAnchor res.2 = Some a3
  ∧ attached res.2 3
  ∧ marker_shows res.2 a3 true.
Proof.
  cbn zeta.
  destruct (restoration_leaves_last_primary
              [ {| anchorID := 1; isPersistent := true |};
                {| anchorID := 2; isPersistent := true |};
                {| anchorID := 3; isPersistent := true |} ]
              (cold_start (Normal [])) (cold_start_scene_ok (Normal [])))
    as (_ & _ & _ & _ & _ & Hlast).
  apply Hlast. reflexivity.
Defined.

End restoration.

(** * More on user_text_records.js: the cached path and sequences of calls *)

Section text_store.

Implicit Types (w : World) (username : string) (records : list TextRecord).

(** [find] and [findIndex] stop at the first record of the user. *)
Lemma list_find_first username before record after :
  Forall (λ r, record_username r ≠ username) before →
  record_username record = username →
  list_find (λ r, record_username r = username) (before ++ record :: after)
  = Some (length before, record).
Proof.
  intros Hbefore Hmatch. apply list_find_Some. split_and!.
  - by rewrite list_lookup_middle.
  - done.
  - intros j other Hj Hlt. rewrite lookup_app_l in Hj by done.
    rewrite Forall_lookup in Hbefore. by eapply Hbefore.
Qed.

Lemma first_record_skip username before after :
  Forall (λ r, record_username r ≠ username) before →
  first_record username (before ++ after) = first_record username after.
Proof.
  intros Hbefore. unfold first_record.
  rewrite list_find_app_r by by apply list_find_None.
  by destruct (list_find _ after) as [[i r]|].
Qed.

Lemma getUserText_filled username w :
  userTextRecords w ≠ [] →
  getUserText username w =
  match first_record username (userTextRecords w) with
  | Some record =>
      (Normal (Some (record_text record)),
       set_trace (trace w ++ [LogUserText (record_text record)]) w)
  | None => (Normal None, w)
  end.
Proof.
  intros Hfilled. unfold getUserText, first_record. run.
  rewrite decide_False by by destruct (userTextRecords w).
  cbn. by destruct (list_find _ _) as [[index record]|].
Qed.

(** X1: With records in the cache, [getUserText] asks the network nothing and
    answers from the cache: the text of the first record of the user, in
    the order of the list, or [null] when the user has none. *)
Theorem getUserText_cached username w :
  userTextRecords w ≠ [] →
  let res := getUserText username w in
  res.1 = Normal (record_text <$> first_record username (userTextRecords w))
  ∧ fetches (trace res.2) = fetches (trace w)
  ∧ userTextRecords res.2 = userTextRecords w
  ∧ (Forall (λ r, record_username r ≠ username) (userTextRecords w) →
     res = (Normal None, w))
  ∧ (∀ before record after,
       userTextRecords w = before ++ record :: after →
       Forall (λ r, record_username r ≠ username) before →
       record_username record = username →
       res.1 = Normal (Some (record_text record))).
Proof.
  intros Hfilled. cbn zeta. rewrite getUserText_filled by done.
  split_and!.
  - by destruct (first_record _ _).
  - destruct (first_record _ _); cbn; [|done].
    rewrite fetches_app. cbn. lia.
  - by destruct (first_record _ _).
  - intros Hnone. unfold first_record.
    assert (list_find (λ r, record_username r = username) (userTextRecords w)
            = None) as -> by by apply list_find_None.
    done.
  - intros before record after Hsplit Hbefore Hmatch.
    unfold first_record. by rewrite Hsplit, list_find_first.
Qed.

Lemma getUserText_cached_witness :
  (getUserText "ana" world_three_records).1 = Normal (Some "second")
  ∧ getUserText "zed" world_three_records = (Normal None, world_three_records).
Proof.
  destruct (getUserText_cached "ana" world_three_records ltac:(discriminate))
    as (_ & _ & _ & _ & Hfirst).
  destruct (getUserText_cached "zed" world_three_records ltac:(discriminate))
    as (_ & _ & _ & Hnone & _).
  split.
  - apply (Hfirst [ {| record_username := "bob"; record_text := "first" |} ]
             {| record_username := "ana"; record_text := "second" |}
             [ {| record_username := "ana"; record_text := "third" |} ]).
    + reflexivity.
    + repeat constructor; discriminate.
    + reflexivity.
  - apply Hnone. repeat constructor; discriminate.
Defined.

Lemma text_store_rejection_propagates_aux username w e :
  userTextRecords w = [] →
  cloud_textFiles w = Throw e →
  getUserText username w =
    (Throw e, set_trace (trace w ++ [CallFetchAllTextFiles]) w)
  ∧ removeUserTextRecord username w =
    (Throw e, set_trace (trace w ++ [CallFetchAllTextFiles]) w).
Proof.
  intros Hempty Hstore.
  unfold getUserText, removeUserTextRecord, updateUserTextRecords, fetchAllTextFiles.
  run. rewrite Hempty. cbn. rewrite decide_True by done. rewrite Hstore. done.
Qed.

(** X2: With an empty cache and a store that rejects the bulk fetch, both
    [getUserText] and [removeUserTextRecord] are rejected with the error
    of the fetch; all they leave behind is the call of the fetch. *)
Theorem text_store_rejection_propagates username w e :
  userTextRecords w = [] →
  cloud_textFiles w = Throw e →
  getUserText username w =
    (Throw e, set_trace (trace w ++ [CallFetchAllTextFiles]) w)
  ∧ removeUserTextRecord username w =
    (Throw e, set_trace (trace w ++ [CallFetchAllTextFiles]) w).
Proof. apply text_store_rejection_propagates_aux. Qed.

Lemma text_store_rejection_propagates_witness :
  (getUserText "ana" (cold_start (Throw "offline"))).1 = Throw "offline"
  ∧ (removeUserTextRecord "ana" (cold_start (Throw "offline"))).1 = Throw "offline".
Proof.
  destruct (text_store_rejection_propagates "ana" (cold_start (Throw "offline"))
              "offline" eq_refl eq_refl) as [-> ->].
  split; reflexivity.
Defined.

Lemma removeUserTextRecord_filled username w :
  userTextRecords w ≠ [] →
  removeUserTextRecord username w =
  (Normal (),
   match list_find (λ r, record_username r = username) (userTextRecords w) with
   | Some (index, _) => set_userTextRecords (delete index (userTextRecords w)) w
   | None => w
   end).
Proof.
  intros Hfilled. unfold removeUserTextRecord. run.
  rewrite decide_False by by destruct (userTextRecords w).
  cbn. by destruct (list_find _ _) as [[index record]|].
Qed.

(** X3: Removing a user and asking for the user's text: only the first record
    went away, so a user with a second record still has a text, the one
    of that record, served from the cache.  When the record removed was the
    only entry of the cache, the cache is empty again and the next lookup
    goes back to the network and gives no text. *)
Theorem remove_then_get username w before record after :
  userTextRecords w = before ++ record :: after →
  Forall (λ r, record_username r ≠ username) before →
  record_username record = username →
  let w1 := (removeUserTextRecord username w).2 in
  let res := getUserText username w1 in
  userTextRecords w1 = before ++ after
  ∧ (before ++ after ≠ [] →
     res.1 = Normal (record_text <$> first_record username after)
     ∧ fetches (trace res.2) = fetches (trace w))
  ∧ (before ++ after = [] →
     no_text res.1 ∧ fetches (trace res.2) = S (fetches (trace w))).
Proof.
  intros Hsplit Hbefore Hmatch. cbn zeta.
  rewrite removeUserTextRecord_filled by (rewrite Hsplit; by destruct before).
  rewrite Hsplit, list_find_first by done. cbn [snd].
  rewrite delete_middle. split_and!.
  - done.
  - intros Hleft. rewrite getUserText_filled by done.
    cbn [userTextRecords set_userTextRecords].
    rewrite first_record_skip by done.
    destruct (first_record username after); cbn; [|done].
    rewrite fetches_app. cbn. split; [done|lia].
  - intros Hnil.
    set (w1 := set_userTextRecords (before ++ after) w).
    assert (userTextRecords w1 = []) as Hempty by done.
    unfold no_text.
    destruct (cloud_textFiles w1) as [records|e] eqn:Hstore.
    + destruct (getUserText_empty_cache username w1 records Hempty Hstore)
        as (w2 & -> & _ & _ & Hfetch). cbn. split; [by left|done].
    + destruct (text_store_rejection_propagates_aux username w1 e Hempty Hstore)
        as [-> _]. cbn. rewrite fetches_app. cbn. split; [eauto|lia].
Qed.

Lemma remove_then_get_witness :
  (getUserText "ana" (removeUserTextRecord "ana" world_three_records).2).1
  = Normal (Some "third").
Proof.
  destruct (remove_then_get "ana" world_three_records
              [ {| record_username := "bob"; record_text := "first" |} ]
              {| record_username := "ana"; record_text := "second" |}
              [ {| record_username := "ana"; record_text := "third" |} ]
              eq_refl ltac:(repeat constructor; discriminate) eq_refl)
    as (_ & Hleft & _).
  apply Hleft. discriminate.
Defined.

Lemma text_call_sublist call w :
  userTextRecords (text_call call w).2 `sublist_of` userTextRecords w.
Proof.
  destruct call as [username|username|]; cbn [text_call].
  - destruct (getUserText_frame username w) as [-> _]. done.
  - rewrite run_bind.
    pose proof (removeUserTextRecord_records username w) as Hrec.
    destruct (removeUserTextRecord username w) as [[[]|e] w1]; cbn in *;
      rewrite Hrec; destruct (list_find _ _) as [[index r]|];
      (done || apply sublist_delete).
  - rewrite run_bind.
    pose proof (updateUserTextRecords_records w) as Hrec.
    destruct (updateUserTextRecords w) as [[[]|e] w1]; cbn in *; by rewrite Hrec.
Qed.

(** X4: Nothing in the module ever adds a record: after any sequence of calls
    of its three functions, whatever the store answered, the cache is what
    is left of the cache before once some records were deleted. *)
Theorem text_calls_never_add calls w :
  userTextRecords (text_calls calls w).2 `sublist_of` userTextRecords w.
Proof.
  revert w. induction calls as [|call calls IH]; intros w; [done|].
  cbn [text_calls].
  pose proof (text_call_sublist call w) as Hcall.
  destruct (text_call call w) as [r w1]. specialize (IH w1).
  destruct (text_calls calls w1) as [rs w2]. cbn in *. by etrans.
Qed.

Lemma text_call_empty_cache call w :
  userTextRecords w = [] →
  no_text (text_call call w).1
  ∧ userTextRecords (text_call call w).2 = []
  ∧ fetches (trace (text_call call w).2) = S (fetches (trace w)).
Proof.
  intros Hempty. unfold no_text.
  destruct call as [username|username|]; cbn [text_call];
    unfold getUserText, removeUserTextRecord, updateUserTextRecords, fetchAllTextFiles;
    run; rewrite ?Hempty; cbn; rewrite ?decide_True by done;
    destruct (cloud_textFiles w) as [records|e]; cbn;
    rewrite ?Hempty; cbn; rewrite !fetches_app; cbn;
    (split_and!; [eauto|done|lia]).
Qed.

(** X5: Starting with an empty cache, as after loading, every call goes to the
    network and none gives a text: after any sequence of calls the cache
    is still empty, each call made exactly one bulk fetch, and every
    [getUserText] among them returned [null] or was rejected. *)
Theorem text_calls_empty_cache calls w :
  userTextRecords w = [] →
  let res := text_calls calls w in
  userTextRecords res.2 = []
  ∧ length res.1 = length calls
  ∧ Forall no_text res.1
  ∧ fetches (trace res.2) = fetches (trace w) + length calls.
Proof.
  revert w. induction calls as [|call calls IH]; intros w Hempty.
  - cbn. split_and!; first [done|lia].
  - cbn [text_calls].
    destruct (text_call_empty_cache call w Hempty) as (Hr & Hempty1 & Hfetch).
    destruct (text_call call w) as [r w1]. cbn in Hr, Hempty1, Hfetch.
    destruct (IH w1 Hempty1) as (Hempty2 & Hlen & Hall & Hfetches).
    destruct (text_calls calls w1) as [rs w2]. cbn in *.
    split_and!; [done|lia|by constructor|lia].
Qed.

Lemma text_calls_empty_cache_witness :
  let res := text_calls [GetUserText "ana"; RemoveUserTextRecord "ana"; GetUserText "ana"]
               (cold_start (Normal [ana_hello])) in
  Forall no_text res.1 ∧ fetches (trace res.2) = 3.
Proof.
  cbn zeta.
  destruct (text_calls_empty_cache
              [GetUserText "ana"; RemoveUserTextRecord "ana"; GetUserText "ana"]
              (cold_start (Normal [ana_hello])) eq_refl)
    as (_ & _ & Hall & Hfetches).
  split; [exact Hall|exact Hfetches].
Defined.

End text_store.

(** * More on the select gesture: what it shows and what it leaves alone *)

Section select_more.

Implicit Types (w : World) (hits : list Hit) (handedness : string).

Lemma remove_children_nil children : remove_children children = [].
Proof. induction children as [|child children IH]; [done|]. by cbn. Qed.

Lemma updateTextUi_exact username text w :
  updateTextUi username text w =
  (Normal (),
   set_uiToolbar_children [Some (username +:+ " says:"); text]
     (set_trace (trace w ++ [LogUpdateTextUi username text]) w)).
Proof.
  unfold updateTextUi, clearTextUi. run. cbn.
  by rewrite remove_children_nil.
Qed.

(** X9: The toolbar never piles texts up: whatever it showed, after
    [updateTextUi] it has exactly two children, the line with the user
    name and the text, so that a second update replaces the first; and
    [clearTextUi] leaves it without children. *)
Theorem updateTextUi_replaces username1 text1 username2 text2 w :
  uiToolbar_children (updateTextUi username1 text1 w).2
    = [Some (username1 +:+ " says:"); text1]
  ∧ uiToolbar_children (updateTextUi username2 text2 (updateTextUi username1 text1 w).2).2
    = [Some (username2 +:+ " says:"); text2]
  ∧ uiToolbar_children (clearTextUi (updateTextUi username1 text1 w).2).2 = []
  ∧ uiToolbar_children (clearTextUi w).2 = [].
Proof.
  rewrite !updateTextUi_exact. unfold clearTextUi. run. cbn.
  by rewrite remove_children_nil.
Qed.

Lemma select_frame_refl w : select_frame w w.
Proof. split; [by destruct w|done]. Qed.

Lemma select_frame_trans w1 w2 w3 :
  select_frame w1 w2 → select_frame w2 w3 → select_frame w1 w3.
Proof.
  intros [H12 Hc12] [H23 Hc23]. split; [|congruence].
  rewrite H23 at 1. rewrite H12 at 1. done.
Qed.

Lemma keeps_anchors_ret {A} (a : A) : keeps_anchors (mret a).
Proof. intros w. apply select_frame_refl. Qed.

Lemma keeps_anchors_bind {A B} (m : M A) (f : A → M B) :
  keeps_anchors m → (∀ a, keeps_anchors (f a)) → keeps_anchors (m ≫= f).
Proof.
  intros Hm Hf w. rewrite run_bind. specialize (Hm w).
  destruct (m w) as [[a|e] w1]; cbn in *; [|done].
  eapply select_frame_trans; [done|]. apply Hf.
Qed.

Lemma keeps_anchors_gets {A} (f : World → A) : keeps_anchors (gets f).
Proof. intros w. apply select_frame_refl. Qed.

Lemma keeps_anchors_emit ev :
  createAnchor_calls [ev] = [] → keeps_anchors (emit ev).
Proof.
  intros Hev w. split; [done|]. run. cbn.
  by rewrite createAnchor_calls_app, Hev, app_nil_r.
Qed.

Lemma keeps_anchors_getUserText username : keeps_anchors (getUserText username).
Proof.
  intros w.
  unfold getUserText, updateUserTextRecords, fetchAllTextFiles. run.
  case_decide as Hlen; cbn.
  - destruct (cloud_textFiles w) as [records|e]; cbn.
    + destruct (list_find _ _) as [[index record]|]; cbn;
        (split; [done|]); cbn; rewrite !createAnchor_calls_app; cbn;
        by rewrite !app_nil_r.
    + split; [done|]. cbn. rewrite !createAnchor_calls_app. cbn.
      by rewrite !app_nil_r.
  - destruct (list_find _ _) as [[index record]|]; cbn.
    + split; [done|]. cbn. rewrite !createAnchor_calls_app. cbn.
      by rewrite !app_nil_r.
    + apply select_frame_refl.
Qed.

Lemma keeps_anchors_deref r : keeps_anchors (deref r).
Proof.
  intros w. unfold deref.
  destruct (annotationObjects w !! r); apply select_frame_refl.
Qed.

Lemma keeps_anchors_setState r s : keeps_anchors (setState r s).
Proof.
  unfold setState. apply keeps_anchors_bind; [apply keeps_anchors_deref|].
  intros ao. apply keeps_anchors_bind; [|intros; apply keeps_anchors_ret].
  intros w. by split.
Qed.

Lemma keeps_anchors_clearTextUi : keeps_anchors clearTextUi.
Proof. intros w. by split. Qed.

Lemma keeps_anchors_updateTextUi username text :
  keeps_anchors (updateTextUi username text).
Proof.
  intros w. rewrite updateTextUi_exact. split; [done|]. cbn.
  rewrite createAnchor_calls_app. cbn. by rewrite app_nil_r.
Qed.

Lemma keeps_anchors_scanHits hits : keeps_anchors (scanHits hits).
Proof.
  induction hits as [|hit hits IH]; [apply keeps_anchors_ret|].
  cbn [scanHits]. destruct (object hit ≫= annotationObject) as [r|]; [|done].
  apply keeps_anchors_bind; [apply keeps_anchors_deref|]. intros ao.
  apply keeps_anchors_bind; [|intros; apply keeps_anchors_ret].
  repeat case_decide.
  - apply keeps_anchors_bind; [apply keeps_anchors_setState|]. intros _.
    apply keeps_anchors_bind; [apply keeps_anchors_getUserText|]. intros text.
    apply keeps_anchors_updateTextUi.
  - apply keeps_anchors_bind; [apply keeps_anchors_setState|]. intros _.
    apply keeps_anchors_clearTextUi.
  - apply keeps_anchors_ret.
Qed.

(** X6: A select gesture never touches the anchors: whatever the handedness,
    the hits, the state of the objects and the answer of the text store,
    and whether the handler returns or is rejected, the pending request,
    the primary anchor and its marker, the scene graph, RATK's anchors,
    the camera and the text cache are as before, and no anchor has been
    requested.  Only the trace, the annotation objects and the toolbar
    may differ. *)
Theorem handleSelectStart_keeps_anchors handedness hitTestTarget hits w :
  let w' := (handleSelectStart handedness hitTestTarget hits w).2 in
  pendingAnchorData w' = pendingAnchorData w
  ∧ primaryAnchor w' = primaryAnchor w
  ∧ primaryAnchorMesh w' = primaryAnchorMesh w
  ∧ anchor_parent w' = anchor_parent w
  ∧ meshes w' = meshes w
  ∧ ratk_anchors w' = ratk_anchors w
  ∧ camera_position w' = camera_position w
  ∧ userTextRecords w' = userTextRecords w
  ∧ createAnchor_calls (trace w') = createAnchor_calls (trace w).
Proof.
  cbn zeta.
  assert (keeps_anchors (handleSelectStart handedness hitTestTarget hits)) as Hkeeps.
  { unfold handleSelectStart, startCreatingAnnotationObject.
    apply keeps_anchors_bind; [by apply keeps_anchors_emit|]. intros _.
    apply keeps_anchors_bind; [apply keeps_anchors_gets|]. intros primary.
    apply keeps_anchors_bind.
    - destruct primary; [|apply keeps_anchors_ret].
      apply keeps_anchors_bind; [by apply keeps_anchors_emit|]. intros _.
      apply keeps_anchors_scanHits.
    - intros [|]; [apply keeps_anchors_ret|by apply keeps_anchors_emit]. }
  destruct (Hkeeps w) as [Hframe Hcalls].
  set (w' := (handleSelectStart handedness hitTestTarget hits w).2) in *.
  clearbody w'. split_and!; [by rewrite Hframe..|done].
Qed.

(** The gesture on a "complete" object when the cache is empty and the
    bulk fetch is answered. *)
Lemma select_complete_exact
    handedness hitTestTarget hits w anchor before hit after r ao records :
  primaryAnchor w = Some anchor →
  hits = before ++ hit :: after →
  Forall (λ h, carried h = None) before →
  carried hit = Some r →
  annotationObjects w !! r = Some ao →
  ao_state ao = "complete" →
  userTextRecords w = [] →
  cloud_textFiles w = Normal records →
  handleSelectStart handedness hitTestTarget hits w =
  (Normal (),
   set_uiToolbar_children [Some (ao_username ao +:+ " says:"); None]
     (set_trace (trace w ++ [ LogController (if decide (handedness = "left") then 0 else 1);
                              LogRaycasterHits hits;
                              CallFetchAllTextFiles;
                              LogTextRecords records;
                              LogUpdateTextUi (ao_username ao) None ])
        (set_annotationObjects (<[r := with_state ao "playing"]> (annotationObjects w)) w))).
Proof.
  intros Hprimary -> Hbefore Hhit Hao Hstate Hcache Hstore.
  unfold handleSelectStart. run. cbn. rewrite Hprimary. cbn.
  rewrite scanHits_skip by done. unfold carried in Hhit. cbn. rewrite Hhit.
  unfold setState, deref, getUserText, updateUserTextRecords, fetchAllTextFiles.
  run. cbn. rewrite Hao. rewrite decide_True by done. cbn.
  rewrite Hao. cbn. rewrite Hcache. cbn. rewrite decide_True by done.
  cbn. rewrite Hstore. cbn. rewrite Hcache. cbn.
  rewrite updateTextUi_exact. cbn.
  unfold with_state. by rewrite <- !app_assoc.
Qed.

(** The gesture on a "playing" object. *)
Lemma select_playing_exact
    handedness hitTestTarget hits w anchor before hit after r ao :
  primaryAnchor w = Some anchor →
  hits = before ++ hit :: after →
  Forall (λ h, carried h = None) before →
  carried hit = Some r →
  annotationObjects w !! r = Some ao →
  ao_state ao = "playing" →
  handleSelectStart handedness hitTestTarget hits w =
  (Normal (),
   set_uiToolbar_children []
     (set_trace (trace w ++ [ LogController (if decide (handedness = "left") then 0 else 1);
                              LogRaycasterHits hits ])
        (set_annotationObjects (<[r := with_state ao "complete"]> (annotationObjects w)) w))).
Proof.
  intros Hprimary -> Hbefore Hhit Hao Hstate.
  unfold handleSelectStart. run. cbn. rewrite Hprimary. cbn.
  rewrite scanHits_skip by done. unfold carried in Hhit. cbn. rewrite Hhit.
  unfold setState, deref, clearTextUi. run. cbn. rewrite Hao.
  rewrite decide_False by (rewrite Hstate; discriminate).
  rewrite decide_True by done. cbn. rewrite Hao. cbn.
  rewrite remove_children_nil. unfold with_state. by rewrite <- !app_assoc.
Qed.

(** X7: Playing an annotation never shows its text.  When the first annotated
    hit is on a "complete" object, the cache is empty (as it always is) and
    the store answers the bulk fetch, the handler returns, the object is
    "playing", one fetch was made, and the toolbar shows the line with the
    user name followed by a [null] text, whatever the store holds, a
    record of that very user included. *)
Theorem playing_shows_no_text
    handedness hitTestTarget hits w anchor before hit after r ao records :
  primaryAnchor w = Some anchor →
  hits = before ++ hit :: after →
  Forall (λ h, carried h = None) before →
  carried hit = Some r →
  annotationObjects w !! r = Some ao →
  ao_state ao = "complete" →
  userTextRecords w = [] →
  cloud_textFiles w = Normal records →
  let res := handleSelectStart handedness hitTestTarget hits w in
  res.1 = Normal ()
  ∧ annotationObjects res.2 !! r = Some (with_state ao "playing")
  ∧ uiToolbar_children res.2 = [Some (ao_username ao +:+ " says:"); None]
  ∧ fetches (trace res.2) = S (fetches (trace w))
  ∧ creations (trace res.2) = creations (trace w).
Proof.
  intros Hprimary Hhits Hbefore Hhit Hao Hstate Hcache Hstore. cbn zeta.
  erewrite select_complete_exact by done. cbn.
  rewrite lookup_insert_eq, fetches_app, creations_app. cbn.
  split_and!; (done || lia).
Qed.

Lemma playing_shows_no_text_witness :
  let res := handleSelectStart "right" None [hit_plain; hit_on 5]
               (world_with_object "complete" (Normal [ana_hello])) in
  res.1 = Normal ()
  ∧ uiToolbar_children res.2 = [Some "ana says:"; None].
Proof.
  cbn zeta.
  destruct (playing_shows_no_text "right" None [hit_plain; hit_on 5]
              (world_with_object "complete" (Normal [ana_hello]))
              {| anchorID := 1; isPersistent := true |}
              [hit_plain] (hit_on 5) [] 5
              {| ao_username := "ana"; ao_state := "complete" |} [ana_hello]
              eq_refl eq_refl ltac:(repeat constructor) eq_refl eq_refl
              eq_refl eq_refl eq_refl)
    as (Hres & _ & Hui & _).
  split; [exact Hres|exact Hui].
Defined.

(** X8: Two gestures that hit the same "complete" object toggle it there and
    back: after the first it is "playing", after the second every
    annotation object is as it was before the first, the toolbar has no
    children, one bulk fetch was made in all and the creation workflow
    was not started. *)
Theorem select_twice_round_trip
    handedness hitTestTarget hits w anchor before hit after r ao records :
  primaryAnchor w = Some anchor →
  hits = before ++ hit :: after →
  Forall (λ h, carried h = None) before →
  carried hit = Some r →
  annotationObjects w !! r = Some ao →
  ao_state ao = "complete" →
  userTextRecords w = [] →
  cloud_textFiles w = Normal records →
  let first := handleSelectStart handedness hitTestTarget hits w in
  let second := handleSelectStart handedness hitTestTarget hits first.2 in
  annotationObjects first.2 !! r = Some (with_state ao "playing")
  ∧ second.1 = Normal ()
  ∧ annotationObjects second.2 = annotationObjects w
  ∧ uiToolbar_children second.2 = []
  ∧ fetches (trace second.2) = S (fetches (trace w))
  ∧ creations (trace second.2) = creations (trace w).
Proof.
  intros Hprimary Hhits Hbefore Hhit Hao Hstate Hcache Hstore. cbn zeta.
  erewrite select_complete_exact by done. cbn [fst snd].
  erewrite (select_playing_exact _ _ _ _ anchor before hit after r
              (with_state ao "playing")); try done.
  2:{ cbn. by rewrite lookup_insert_eq. }
  cbn. rewrite lookup_insert_eq, insert_insert_eq.
  rewrite !fetches_app, !creations_app. cbn.
  split_and!; try (done || lia).
  apply insert_id. rewrite Hao. f_equal.
  destruct ao as [name state]. cbn in *. by subst.
Qed.

Lemma select_twice_round_trip_witness :
  let w := world_with_object "complete" (Normal [ana_hello]) in
  let first := handleSelectStart "right" None [hit_on 5] w in
  let second := handleSelectStart "right" None [hit_on 5] first.2 in
  annotationObjects second.2 = annotationObjects w
  ∧ uiToolbar_children second.2 = [].
Proof.
  cbn zeta.
  destruct (select_twice_round_trip "right" None [hit_on 5]
              (world_with_object "complete" (Normal [ana_hello]))
              {| anchorID := 1; isPersistent := true |}
              [] (hit_on 5) [] 5
              {| ao_username := "ana"; ao_state := "complete" |} [ana_hello]
              eq_refl eq_refl ltac:(repeat constructor) eq_refl eq_refl
              eq_refl eq_refl eq_refl)
    as (_ & _ & Hheap & Hui & _).
  split; [exact Hheap|exact Hui].
Defined.

End select_more.

(** * More on anchors: refused deletions, stale primary anchor, markers *)

Section anchors_more.

Implicit Types (w : World) (anchor : Anchor) (anchors : list Anchor).

Lemma for_of_app {A} (l1 l2 : list A) (body : A → M unit) w :
  for_of (l1 ++ l2) body w =
  match for_of l1 body w with
  | (Normal _, w1) => for_of l2 body w1
  | (Throw e, w1) => (Throw e, w1)
  end.
Proof.
  revert w. induction l1 as [|v l1 IH]; intros w; [done|].
  cbn [for_of app]. rewrite !run_bind.
  destruct (body v w) as [[[]|e] w1]; [apply IH|done].
Qed.

(** One round of the deletion loop on an anchor the device refuses to
    delete: the call is made and rejected, the set is as before. *)
Lemma delete_one_refused anchor e w :
  ratk_delete_rejects w !! anchorID anchor = Some e →
  (emit (LogDeletingPersistentAnchor (anchorID anchor));;
   ratk_deleteAnchor anchor) w =
  (Throw e,
   set_trace (trace w ++ [ LogDeletingPersistentAnchor (anchorID anchor);
                           CallDeleteAnchor (anchorID anchor) ]) w).
Proof.
  intros Hrefused. unfold ratk_deleteAnchor. run. cbn.
  rewrite Hrefused. cbn. by rewrite <- !app_assoc.
Qed.

(** X10: A refused deletion ends the squeeze gesture at once: the handler is
    rejected with the error of the device, the persistent anchors before
    the refused one are gone, the refused one is still in RATK's set and
    the later ones were not even tried, and no request for a new anchor is
    recorded: the pending slot is as it was. *)
Theorem handleSqueezeStart_aborts w before anchor after e :
  ratk_persistentAnchors w = before ++ anchor :: after →
  (∀ b, b ∈ before → ratk_delete_rejects w !! anchorID b = None) →
  ratk_delete_rejects w !! anchorID anchor = Some e →
  let res := handleSqueezeStart w in
  res.1 = Throw e
  ∧ pendingAnchorData res.2 = pendingAnchorData w
  ∧ ratk_anchors res.2 =
    filter (λ a, anchorID a ∉ anchorID <$> before) (ratk_anchors w)
  ∧ anchor ∈ ratk_anchors res.2
  ∧ trace res.2 =
    trace w ++ flat_map deletion_events before
      ++ [ LogDeletingPersistentAnchor (anchorID anchor);
           CallDeleteAnchor (anchorID anchor) ].
Proof.
  intros Hsplit Hbefore Hrefused. cbn zeta. unfold handleSqueezeStart.
  rewrite run_bind. cbn [gets]. rewrite run_bind, Hsplit, for_of_app.
  rewrite delete_loop by done. cbn [for_of]. rewrite run_bind.
  rewrite (delete_one_refused anchor e) by done. cbn.
  split_and!; try done.
  - apply list_elem_of_filter. split.
    + intros (b & Hid & Hb)%list_elem_of_fmap.
      specialize (Hbefore b Hb). congruence.
    + assert (anchor ∈ ratk_persistentAnchors w) as Hin.
      { rewrite Hsplit. apply elem_of_app. right. by left. }
      unfold ratk_persistentAnchors in Hin.
      by apply list_elem_of_filter in Hin as [_ Hin].
  - by rewrite <- app_assoc.
Qed.

Lemma handleSqueezeStart_aborts_witness :
  let res := handleSqueezeStart world_refusing_3 in
  res.1 = Throw "device busy"
  ∧ pendingAnchorData res.2 = None
  ∧ {| anchorID := 3; isPersistent := true |} ∈ ratk_anchors res.2.
Proof.
  cbn zeta.
  destruct (handleSqueezeStart_aborts world_refusing_3
              [ {| anchorID := 1; isPersistent := true |} ]
              {| anchorID := 3; isPersistent := true |}
              [ {| anchorID := 4; isPersistent := true |} ]
              "device busy" eq_refl)
    as (Hres & Hpending & _ & Hin & _).
  - intros b Hb. apply list_elem_of_singleton in Hb as ->. reflexivity.
  - reflexivity.
  - split_and!; [exact Hres|exact Hpending|exact Hin].
Defined.

(** X11: The squeeze gesture deletes the persistent anchors from RATK and
    leaves the primary anchor alone.  When the primary anchor is one of
    them, it is gone from RATK's set after the gesture and is still the
    primary anchor: [primaryAnchor], its marker, the scene graph and the
    meshes are as before, so it stays attached until another anchor is
    installed. *)
Theorem squeeze_keeps_deleted_primary w anchor :
  deletions_succeed w →
  primaryAnchor w = Some anchor →
  anchor ∈ ratk_persistentAnchors w →
  let res := handleSqueezeStart w in
  res.1 = Normal ()
  ∧ (∀ b, b ∈ ratk_anchors res.2 → anchorID b ≠ anchorID anchor)
  ∧ primaryAnchor res.2 = Some anchor
  ∧ primaryAnchorMesh res.2 = primaryAnchorMesh w
  ∧ anchor_parent res.2 = anchor_parent w
  ∧ meshes res.2 = meshes w.
Proof.
  intros Hallowed Hprimary Hin. cbn zeta.
  rewrite handleSqueezeStart_spec by done. cbn.
  split_and!; try done.
  intros b [Hid _]%list_elem_of_filter Heq. apply Hid.
  apply list_elem_of_fmap. by exists anchor.
Qed.

Lemma squeeze_keeps_deleted_primary_witness :
  let res := handleSqueezeStart world_primary_persistent in
  ({| anchorID := 1; isPersistent := true |} ∉ ratk_anchors res.2)
  ∧ primaryAnchor res.2 = Some {| anchorID := 1; isPersistent := true |}
  ∧ attached res.2 1.
Proof.
  cbn zeta.
  destruct (squeeze_keeps_deleted_primary world_primary_persistent
              {| anchorID := 1; isPersistent := true |})
    as (_ & Hgone & Hprimary & _ & Hparent & _).
  - intros a _. reflexivity.
  - reflexivity.
  - apply list_elem_of_filter. split; [reflexivity|]. left.
  - split_and!.
    + intros Hin. by apply (Hgone _ Hin).
    + exact Hprimary.
    + unfold attached. rewrite Hparent. reflexivity.
Defined.

(** The world after one call of [setPrimaryAnchor], in full. *)
Lemma setPrimaryAnchor_exact anchor isRecovered w :
  scene_ok w →
  setPrimaryAnchor anchor isRecovered w =
  (Normal (),
   set_trace (trace w ++ [ LogPrimaryAnchor anchor;
                           LogAnchorCreated (anchorID anchor) (isPersistent anchor) isRecovered;
                           CallLoadAnnotationObjects anchor ])
     (set_anchor_parent
        (<[anchorID anchor := InScene]> (anchor_parent (detached (primaryAnchor w) w)))
        (set_meshes (meshes w ++ [marker_of (anchor, isRecovered)])
           (set_primaryAnchorMesh (Some (length (meshes w)))
              (set_primaryAnchor (Some anchor) w))))).
Proof.
  intros [Hscene Hmeshes]. unfold setPrimaryAnchor.
  rewrite run_bind. cbn [gets].
  rewrite run_bind, setPrimaryAnchor_detach by done.
  rewrite run_bind. unfold modify at 1. rewrite run_bind. unfold emit, modify at 1.
  rewrite run_bind, buildAnchorMarker_spec. unfold loadAnnotationObjects. run.
  unfold marker_of.
  destruct (primaryAnchor w) as [old|]; cbn [detached]; [case_decide|];
    cbn; by rewrite <- !app_assoc.
Qed.

Lemma setPrimaryAnchor_keeps_scene_ok anchor isRecovered w :
  scene_ok w → scene_ok (setPrimaryAnchor anchor isRecovered w).2.
Proof.
  intros Hok.
  by destruct (setPrimaryAnchor_step anchor isRecovered w Hok) as (w' & -> & Hok' & _).
Qed.

(** X14: Markers are made and never taken off.  After any sequence of calls of
    [setPrimaryAnchor], the heap of meshes is the heap before followed by
    one marker per call, in the order of the calls, each still a child of
    the anchor of its call and with the colour of its call: no marker was
    removed, detached or recoloured, also when an anchor was replaced or
    installed again. *)
Theorem markers_accumulate (calls : list (Anchor * bool)) w :
  scene_ok w →
  let res := setPrimaryAnchor_all calls w in
  meshes res.2 = meshes w ++ (marker_of <$> calls)
  ∧ (∀ call, call ∈ calls → marker_of call ∈ meshes res.2)
  ∧ (calls ≠ [] →
     primaryAnchorMesh res.2 = Some (length (meshes w) + length calls - 1)).
Proof.
  intros Hok. cbn zeta.
  assert (meshes (setPrimaryAnchor_all calls w).2 = meshes w ++ (marker_of <$> calls)
          ∧ (calls ≠ [] →
             primaryAnchorMesh (setPrimaryAnchor_all calls w).2
             = Some (length (meshes w) + length calls - 1))) as [Hmeshes Hlast].
  { revert w Hok. induction calls as [|[anchor isRecovered] calls IH]; intros w Hok.
    - cbn. by rewrite app_nil_r.
    - unfold setPrimaryAnchor_all in *. cbn [for_of]. rewrite run_bind.
      pose proof (setPrimaryAnchor_keeps_scene_ok anchor isRecovered w Hok) as Hok1.
      cbn [fst snd] in *.
      rewrite setPrimaryAnchor_exact in * by done. cbn [fst snd] in *.
      destruct (IH _ Hok1) as [IHmeshes IHlast]. split.
      + rewrite IHmeshes. cbn. by rewrite <- app_assoc.
      + intros _. destruct calls as [|call calls].
        * cbn. f_equal. lia.
        * rewrite IHlast by done. cbn. rewrite length_app. cbn. f_equal. lia. }
  split_and!; [done| |done].
  intros call Hcall. rewrite Hmeshes. apply elem_of_app. right.
  by apply list_elem_of_fmap_2.
Qed.

Lemma markers_accumulate_witness :
  let a := {| anchorID := 1; isPersistent := true |} in
  let b := {| anchorID := 2; isPersistent := true |} in
  meshes (setPrimaryAnchor_all [(a, false); (b, true); (a, true)] (cold_start (Normal []))).2
  = [ {| color := 0x00ff00; mesh_parent := Some (InAnchor 1) |};
      {| color := 0xff0000; mesh_parent := Some (InAnchor 2) |};
      {| color := 0xff0000; mesh_parent := Some (InAnchor 1) |} ].
Proof.
  cbn zeta.
  destruct (markers_accumulate
              [ ({| anchorID := 1; isPersistent := true |}, false);
                ({| anchorID := 2; isPersistent := true |}, true);
                ({| anchorID := 1; isPersistent := true |}, true) ]
              (cold_start (Normal [])) (cold_start_scene_ok (Normal [])))
    as (Hmeshes & _).
  exact Hmeshes.
Defined.




Lemma scene_ok_squeezed w :
  deletions_succeed w → scene_ok w →
  scene_ok (handlePendingAnchors (handleSqueezeStart w).2).2.
Proof.
  intros Hallowed [Hscene Hmeshes].
  rewrite handleSqueezeStart_spec by done.
  unfold handlePendingAnchors. run. by split.
Qed.

(** X13: From gesture to anchor: a squeeze, the next frame, and the fulfilment
    of [createAnchor] with [anchor].  The frame asks once for a persistent
    anchor at the camera position brought to the floor and empties the
    pending slot; when the anchor arrives it becomes the primary anchor,
    attached to the scene with the green marker of a new anchor, and it is
    the only anchor attached: the former primary anchor has left the
    scene. *)
Theorem squeeze_frame_anchor_installed w anchor :
  scene_ok w →
  deletions_succeed w →
  let w1 := (handleSqueezeStart w).2 in
  let w2 := (handlePendingAnchors w1).2 in
  let res := handlePendingAnchors_then anchor w2 in
  createAnchor_calls (trace w2) =
    createAnchor_calls (trace w) ++ [(on_floor (camera_position w), new_Quaternion, true)]
  ∧ res.1 = Normal ()
  ∧ pendingAnchorData res.2 = None
  ∧ primaryAnchor res.2 = Some anchor
  ∧ marker_shows res.2 anchor false
  ∧ (∀ id, attached res.2 id ↔ id = anchorID anchor).
Proof.
  intros Hok Hallowed. cbn zeta.
  pose proof (scene_ok_squeezed w Hallowed Hok) as Hok2.
  unfold handlePendingAnchors_then.
  destruct (setPrimaryAnchor_step anchor false _ Hok2)
    as (w' & Hrun & [Hscene' _] & Hprimary & Hattached & Hmarker & _).
  pose proof (setPrimaryAnchor_exact anchor false _ Hok2) as Hexact.
  rewrite Hrun in Hexact. rewrite Hrun. cbn [fst snd].
  split_and!; try done.
  - rewrite handleSqueezeStart_spec by done.
    unfold handlePendingAnchors. run. cbn.
    by rewrite !createAnchor_calls_app, createAnchor_calls_deletions, app_nil_r.
  - injection Hexact as ->. cbn.
    rewrite handleSqueezeStart_spec by done.
    unfold handlePendingAnchors. by run.
  - intros id. split.
    + intros Hid. destruct (Hscene' id Hid) as (a & Ha & <-). congruence.
    + by intros ->.
Qed.

Lemma squeeze_frame_anchor_installed_witness :
  let new := {| anchorID := 9; isPersistent := true |} in
  let w2 := (handlePendingAnchors (handleSqueezeStart world_primary_persistent).2).2 in
  let res := handlePendingAnchors_then new w2 in
  primaryAnchor res.2 = Some new ∧ attached res.2 9 ∧ ¬ attached res.2 1.
Proof.
  cbn zeta.
  destruct (squeeze_frame_anchor_installed world_primary_persistent
              {| anchorID := 9; isPersistent := true |})
    as (_ & _ & _ & Hprimary & _ & Hattached).
  - split.
    + intros id Hid. unfold attached in Hid. cbn in Hid.
      apply lookup_singleton_Some in Hid as [<- _]. by eexists.
    + intros i m Hi. by destruct i.
  - intros a _. reflexivity.
  - split_and!; [exact Hprimary|by apply Hattached|].
    intros H1. apply Hattached in H1. discriminate.
Defined.

Lemma errors_logged_app (t1 t2 : list Event) :
  errors_logged (t1 ++ t2) = errors_logged t1 ++ errors_logged t2.
Proof.
  induction t1 as [|ev t1 IH]; [done|].
  destruct ev; cbn; by rewrite ?IH.
Qed.

Lemma restore_callback_no_error anchors w :
  scene_ok w →
  ∃ w', for_of anchors (λ anchor, setPrimaryAnchor anchor true) w = (Normal (), w')
        ∧ errors_logged (trace w') = errors_logged (trace w).
Proof.
  revert w. induction anchors as [|anchor anchors IH]; intros w Hok.
  - by exists w.
  - pose proof (setPrimaryAnchor_keeps_scene_ok anchor true w Hok) as Hok1.
    cbn [for_of]. rewrite run_bind.
    rewrite setPrimaryAnchor_exact in * by done. cbn [snd] in Hok1.
    destruct (IH _ Hok1) as (w' & -> & Herrors).
    exists w'. split; [done|]. rewrite Herrors. cbn.
    rewrite errors_logged_app. cbn. by rewrite app_nil_r.
Qed.

(** X15: What the function given to [setTimeout] does with each way the
    restoration can end.  It throws, after writing one error line, exactly
    when [restorePersistentAnchors] throws before returning a promise.
    When a promise is returned the function returns normally and writes no
    error line, whether the promise is fulfilled (the promise made by
    [then] is fulfilled too) or rejected (that promise is rejected with
    the same error). *)
Theorem restoration_outcomes outcome w :
  scene_ok w →
  let res := setupRATK_sessionstart_timeout outcome w in
  res.1 = match outcome with
          | Throws e => Throw e
          | Returns (Throw e) => Normal (Throw e)
          | Returns (Normal _) => Normal (Normal ())
          end
  ∧ errors_logged (trace res.2) =
    errors_logged (trace w) ++ match outcome with Throws e => [e] | Returns _ => [] end.
Proof.
  intros Hok. cbn zeta.
  destruct outcome as [e|[restored|e]].
  - rewrite restoration_synchronous_throw_rethrown. cbn.
    by rewrite errors_logged_app.
  - unfold setupRATK_sessionstart_timeout, try_catch, ratk_restorePersistentAnchors.
    rewrite !run_bind. run. cbn.
    match goal with |- context [for_of ?l _ ?v] =>
      destruct (restore_callback_no_error l v) as (w' & -> & Herrors) end.
    { by destruct Hok. }
    cbn. rewrite Herrors. cbn. rewrite !errors_logged_app. cbn.
    by rewrite !app_nil_r.
  - unfold setupRATK_sessionstart_timeout, try_catch, ratk_restorePersistentAnchors.
    run. cbn. rewrite errors_logged_app. cbn. by rewrite !app_nil_r.
Qed.

Lemma restoration_outcomes_witness :
  (setupRATK_sessionstart_timeout (Throws "no session") (cold_start (Normal []))).1
    = Throw "no session"
  ∧ (setupRATK_sessionstart_timeout (Returns (Throw "no session")) (cold_start (Normal []))).1
    = Normal (Throw "no session").
Proof.
  split.
  - apply (restoration_outcomes (Throws "no session") (cold_start (Normal []))
             (cold_start_scene_ok (Normal []))).
  - apply (restoration_outcomes (Returns (Throw "no session")) (cold_start (Normal []))
             (cold_start_scene_ok (Normal []))).
Defined.

(** X12: A recorded request is served once.  Over any number of frames, one or
    more, [handlePendingAnchors] asks RATK for an anchor exactly when a
    request was pending at the first of them, once, with the position and
    the orientation recorded and always for a persistent anchor; the slot
    is empty afterwards and nothing else in the world has changed. *)
Theorem frames_serve_request_once n w :
  0 < n →
  createAnchor_calls (trace (frames n w)) =
    createAnchor_calls (trace w)
      ++ match pendingAnchorData w with
         | Some data => [(position data, quaternion data, true)]
         | None => []
         end
  ∧ pendingAnchorData (frames n w) = None
  ∧ frames n w = set_pendingAnchorData None (set_trace (trace (frames n w)) w).
Proof.
  intros Hn. destruct n as [|n]; [lia|]. cbn [frames].
  unfold handlePendingAnchors. run.
  destruct (pendingAnchorData w) as [data|] eqn:Hpending; cbn.
  - rewrite frames_idle by done. cbn.
    rewrite createAnchor_calls_app. cbn. done.
  - rewrite frames_idle by done. rewrite app_nil_r. split_and!; try done.
    destruct w. cbn in *. by subst.
Qed.

Lemma frames_serve_request_once_witness :
  createAnchor_calls
    (trace (frames 5 (handleSqueezeStart world_two_persistent).2))
  = [({| x := num0; y := num0; z := num3 |}, new_Quaternion, true)].
Proof.
  destruct (frames_serve_request_once 5 (handleSqueezeStart world_two_persistent).2)
    as (Hcalls & _); [lia|].
  exact Hcalls.
Defined.

End anchors_more.

(** * Audio: fetching the files, loading the example sound *)

Section audio.

(** X16: [fetchAllAudioFiles] never rejects.  It asks for the pre-signed URLs
    of 'sound.webm'; when they arrive it logs and returns them, and when
    the request fails it writes the error to the console and returns
    [undefined]. *)
Theorem fetchAllAudioFiles_never_rejects (answer : Completion (list string)) log :
  let res := fetchAllAudioFiles answer log in
  res.1 = Normal (match answer with Normal urls => Some urls | Throw _ => None end)
  ∧ res.2 = log ++ [ CallFetchAllPreSignedUrls "sound.webm";
                     match answer with
                     | Normal urls => LogPreSignedUrls urls
                     | Throw e => ErrorFailedToFetchAudioFiles e
                     end ].
Proof. destruct answer; cbn; by rewrite <- app_assoc. Qed.

(** X20: The example sound is played only after every check has passed: the
    response is [ok], its blob arrives and has type "video/webm", and the
    sound has loaded it.  In every other case the function is rejected
    and [play] is never called; a response that is not [ok] is rejected
    with its status, before the blob is read, and a blob of another type
    is rejected before it is given to the sound. *)
Theorem sound_plays_only_when_checked
    (fetched : Completion Response) (loaded : Completion unit) :
  let res := setupScene_load_sound fetched loaded [] in
  (CallSoundPlay ∈ res.2 ↔
     ∃ response blob,
       fetched = Normal response ∧ response_ok response = true
       ∧ response_blob response = Normal blob ∧ blob_type blob = "video/webm"
       ∧ loaded = Normal ())
  ∧ (res.1 = Normal () ↔ CallSoundPlay ∈ res.2)
  ∧ (∀ response,
       fetched = Normal response → response_ok response = false →
       res = (Throw ("HTTP error! Status: " +:+ pretty (response_status response)),
              [CallFetch "assets/example.webm"]))
  ∧ (∀ response blob,
       fetched = Normal response → response_ok response = true →
       response_blob response = Normal blob → blob_type blob ≠ "video/webm" →
       res = (Throw "Fetched file is not a WebM video",
              [CallFetch "assets/example.webm"])).
Proof.
  cbn zeta. unfold setupScene_load_sound, eff_bind, eff_seq, eff_await, eff_log,
    eff_throw. cbn.
  destruct fetched as [[ok status [blob|e]]|e]; cbn;
    try destruct ok; cbn; try case_decide; try destruct loaded as [[]|e'];
    cbn; rewrite ?elem_of_cons, ?elem_of_nil; split_and!;
    repeat match goal with
           | |- _ ↔ _ => split
           | |- _ → _ => intro
           | |- ∀ _, _ => intro
           | H : ∃ _, _ |- _ => destruct H
           | H : _ ∧ _ |- _ => destruct H
           | H : _ ∨ _ |- _ => destruct H
           | H : False |- _ => destruct H
           end;
    simplify_eq/=; try done; try tauto;
    try (eexists _, _; split_and!; done).
Qed.

Lemma sound_plays_only_when_checked_witness :
  let webm := {| response_ok := true; response_status := 200;
                 response_blob := Normal {| blob_type := "video/webm" |} |} in
  let missing := {| response_ok := false; response_status := 404;
                    response_blob := Throw "no body" |} in
  CallSoundPlay ∈ (setupScene_load_sound (Normal webm) (Normal ()) []).2
  ∧ setupScene_load_sound (Normal missing) (Normal ()) []
    = (Throw "HTTP error! Status: 404", [CallFetch "assets/example.webm"]).
Proof.
  cbn zeta. split.
  - destruct (sound_plays_only_when_checked
                (Normal {| response_ok := true; response_status := 200;
                           response_blob := Normal {| blob_type := "video/webm" |} |})
                (Normal ())) as ([_ Hplay] & _).
    apply Hplay.
    exists {| response_ok := true; response_status := 200;
              response_blob := Normal {| blob_type := "video/webm" |} |},
      {| blob_type := "video/webm" |}.
    split_and!; reflexivity.
  - destruct (sound_plays_only_when_checked
                (Normal {| response_ok := false; response_status := 404;
                           response_blob := Throw "no body" |})
                (Normal ())) as (_ & _ & Hstatus & _).
    apply (Hstatus _ eq_refl eq_refl).
Defined.

End audio.

(** * The sphere of the second index.js *)

Section sphere.

Lemma animate_add m n s : animate (m + n) s = animate n (animate m s).
Proof. revert s. induction m as [|m IH]; intros s; [done|]. cbn. apply IH. Qed.

Lemma orbit_lookup n j s : j < n → orbit n s !! j = Some (animate j s).
Proof.
  revert j s. induction n as [|n IH]; intros j s Hj; [lia|].
  destruct j as [|j]; [done|]. cbn. apply IH. lia.
Qed.

(** After 485 frames the sphere is where it was after 81, moving the same
    way: from then on it repeats 404 frames for ever. *)
Lemma animate_cycle : animate 485 sphere_start = animate 81 sphere_start.
Proof. vm_compute. reflexivity. Qed.

Lemma animate_early n :
  ∃ j, j < 485 ∧ animate n sphere_start = animate j sphere_start.
Proof.
  induction n as [n IH] using lt_wf_ind.
  destruct (decide (n < 485)) as [Hn|Hn]; [by exists n|].
  destruct (IH (n - 485 + 81)) as (j & Hj & Heq); [lia|].
  exists j. split; [done|]. rewrite <- Heq.
  replace n with (485 + (n - 485)) at 1 by lia.
  rewrite animate_add, animate_cycle, <- animate_add. f_equal. lia.
Qed.

Lemma orbit_in_range :
  forallb sphere_in_range (orbit 485 sphere_start) = true.
Proof. vm_compute. reflexivity. Qed.

(** X21: The sphere never gets away.  From the start [setupScene] gives it,
    after any number of frames its [x] is strictly between -10.1 and 10.1
    in binary64 arithmetic, [direction] is 1 or -1, and from the first
    frame on the sound has been given the [x] of the sphere. *)
Theorem sphere_stays_in_range n :
  let s := animate n sphere_start in
  js_lt (js_neg num10_1) (sphere_position_x s) = true
  ∧ js_lt (sphere_position_x s) num10_1 = true
  ∧ (direction s = num1 ∨ direction s = js_neg num1)
  ∧ (0 < n → sound_position_x s = Some (sphere_position_x s)).
Proof.
  cbn zeta. split_and!.
  1-3: destruct (animate_early n) as (j & Hj & ->);
    pose proof orbit_in_range as Hall;
    rewrite forallb_forall in Hall;
    assert (sphere_in_range (animate j sphere_start) = true) as Hin
      by (apply Hall, list_elem_of_In, list_elem_of_lookup; exists j;
          by apply orbit_lookup);
    unfold sphere_in_range in Hin;
    apply andb_prop in Hin as [[Hlow Hhigh]%andb_prop Hdir].
  - done.
  - done.
  - apply orb_prop in Hdir as [Hdir|Hdir]; apply bool_decide_eq_true in Hdir; eauto.
  - intros Hn. destruct n as [|n]; [lia|].
    replace (S n) with (n + 1) by lia. rewrite animate_add. done.
Qed.

Lemma sphere_stays_in_range_witness :
  sound_position_x (animate 1000 sphere_start)
  = Some (sphere_position_x (animate 1000 sphere_start)).
Proof.
  destruct (sphere_stays_in_range 1000) as (_ & _ & _ & Hsound).
  apply Hsound. lia.
Defined.

End sphere.

(** * Controllers: hit-test targets and set-up *)

Section controllers.

Implicit Types (s : Rig) (this hitTestTarget : nat).

(** X17: A controller that connects, gets its hit-test target and later
    disconnects: while connected [this.hitTestTarget] is the target, with
    its marker; on disconnection RATK is asked to delete that very target
    and [this.hitTestTarget] is cleared.  The other controllers keep
    their targets. *)
Theorem controller_target_round_trip this handedness hitTestTarget s :
  let s1 := handleControllerConnected this handedness s in
  let s2 := handleControllerConnected_then this hitTestTarget s1 in
  let res := handleControllerDisconnected this (Normal ()) s2 in
  rig_hitTestTarget s2 !! this = Some hitTestTarget
  ∧ res.1 = Normal ()
  ∧ rig_hitTestTarget res.2 !! this = None
  ∧ (∀ other, other ≠ this →
       rig_hitTestTarget res.2 !! other = rig_hitTestTarget s !! other)
  ∧ rig_lines res.2 =
    rig_lines s ++ [ CallCreateHitTestTargetFromControllerSpace handedness;
                     AddHitTestMarker hitTestTarget;
                     CallDeleteHitTestTarget (Some hitTestTarget) ].
Proof.
  cbn. rewrite !lookup_insert_eq, lookup_delete_eq, <- !app_assoc.
  split_and!; try done.
  intros other Hother. by rewrite lookup_delete_ne, lookup_insert_ne.
Qed.


Lemma elem_of_scene_add node other children :
  other ∈ scene_add node children ↔ other = node ∨ other ∈ children.
Proof.
  unfold scene_add. rewrite elem_of_app, list_elem_of_filter, list_elem_of_singleton.
  split.
  - intros [[_ Hin]|Heq]; [by right|by left].
  - intros [->|Hin]; [by right|].
    destruct (decide (other = node)) as [->|Hne]; [by right|by left].
Qed.

Lemma NoDup_scene_add node children :
  NoDup children → NoDup (scene_add node children).
Proof.
  intros Hnodup. unfold scene_add. apply NoDup_app. split_and!.
  - by apply NoDup_filter.
  - intros other [Hne _]%list_elem_of_filter ->%list_elem_of_singleton. done.
  - apply NoDup_singleton.
Qed.

Lemma addEventListener_keeps type other types :
  other ∈ types → other ∈ addEventListener type types.
Proof.
  intros Hin. unfold addEventListener. case_decide; [done|].
  apply elem_of_app. by left.
Qed.

Lemma addEventListener_adds type types : type ∈ addEventListener type types.
Proof.
  unfold addEventListener. case_decide; [done|].
  apply elem_of_app. right. by left.
Qed.

Lemma setupController_ready index (s : Setup) :
  controller_ready (setupController index s) index.
Proof.
  split; cbn.
  - rewrite !elem_of_scene_add. right. by left.
  - intros type Htype. rewrite lookup_insert_eq. cbn.
    repeat (apply elem_of_cons in Htype as [->|Htype]);
      [..|by apply elem_of_nil in Htype];
      eauto 6 using addEventListener_keeps, addEventListener_adds.
Qed.

Lemma setupController_keeps_ready index other (s : Setup) :
  controller_ready s other → controller_ready (setupController index s) other.
Proof.
  intros [Hscene Htypes]. split; cbn.
  - rewrite !elem_of_scene_add. by right; right.
  - intros type Htype. specialize (Htypes type Htype).
    destruct (decide (index = other)) as [->|Hne].
    + rewrite lookup_insert_eq. cbn. eauto 6 using addEventListener_keeps.
    + by rewrite lookup_insert_ne.
Qed.

Lemma setupControllers_keep_ready indices other (s : Setup) :
  controller_ready s other → controller_ready (setupControllers indices s) other.
Proof.
  revert s. induction indices as [|index indices IH]; intros s Hready; [done|].
  cbn. by apply IH, setupController_keeps_ready.
Qed.

(** X19: [setupController] takes the grip from index 0 whatever its argument.
    After setting up any controllers, each of them is a child of the scene
    with listeners for its four events, but every controller model went to
    grip 0, one per call: no other grip has a model or has joined the
    scene that did not have one or was not there before.  Grip 0 is a
    child of the scene once however often it was added. *)
Theorem setupControllers_models_on_grip_zero indices (s : Setup) :
  let s' := setupControllers indices s in
  (∀ k, k ≠ 0 →
     setup_grip_models s' !! k = setup_grip_models s !! k
     ∧ (NodeGrip k ∈ setup_scene s' ↔ NodeGrip k ∈ setup_scene s))
  ∧ default 0 (setup_grip_models s' !! 0)
    = default 0 (setup_grip_models s !! 0) + length indices
  ∧ (∀ index, index ∈ indices → controller_ready s' index)
  ∧ (NoDup (setup_scene s) → NoDup (setup_scene s')).
Proof.
  cbn zeta. revert s. induction indices as [|index indices IH]; intros s.
  - cbn. split_and!.
    + done.
    + lia.
    + intros index Hin. by apply elem_of_nil in Hin.
    + done.
  - cbn [setupControllers foldl]. fold (setupControllers indices (setupController index s)).
    destruct (IH (setupController index s)) as (Hgrips & Hmodels & Hready & Hnodup).
    split_and!.
    + intros k Hk. destruct (Hgrips k Hk) as [-> ->]. cbn.
      rewrite lookup_insert_ne by done. split; [done|].
      rewrite !elem_of_scene_add. split; [|by intros; right; right].
      intros [Heq|[Heq|Hin]]; [congruence|discriminate|done].
    + rewrite Hmodels. cbn. rewrite lookup_insert_eq. cbn. lia.
    + intros other [->|Hin]%elem_of_cons; [|by apply Hready].
      apply setupControllers_keep_ready, setupController_ready.
    + intros Hs. apply Hnodup. cbn. by do 2 apply NoDup_scene_add.
Qed.

Lemma setupControllers_models_on_grip_zero_witness :
  let s' := setupControllers [0; 1] setup_start in
  setup_grip_models s' !! 1 = None
  ∧ (NodeGrip 1 ∉ setup_scene s')
  ∧ default 0 (setup_grip_models s' !! 0) = 2
  ∧ controller_ready s' 1.
Proof.
  cbn zeta.
  destruct (setupControllers_models_on_grip_zero [0; 1] setup_start)
    as (Hgrips & Hmodels & Hready & _).
  destruct (Hgrips 1 ltac:(lia)) as [Hnone Hscene].
  split_and!.
  - rewrite Hnone. reflexivity.
  - rewrite Hscene. apply not_elem_of_nil.
  - exact Hmodels.
  - apply Hready. right. left.
Defined.

End controllers.
